(** * Vigilancia IA: camera view, motion detection and analysis pipeline

    A shallow embedding of the application module (the component
    [CameraView] and the constants it uses) and of
    [services/geminiService.ts].

    Conventions of the embedding.
    - JavaScript numbers that hold integers (clock readings in milliseconds,
      channel values, the accumulated difference) are [Z].  [NaN] is [None]
      in an [option]; it arises only from reading a typed array out of range.
    - The one non-integer number of the program, the motion score
      [diff / (currentData.length / 4)], is an exact rational [Q]: the double
      that JavaScript computes is the correctly rounded value of this
      quotient, and is equal to it whenever the quotient is an integer.
    - [useState] cells and [useRef] cells are fields of one record; React's
      effects are run explicitly after every transition that changes one of
      their dependencies.
    - Asynchronous work (camera acquisition, analysis calls, animation
      frames, inbound peer calls) is an [Action] delivered by the
      environment; the continuation after an [await] is the handler of the
      action that settles it. *)

From Stdlib Require Import ZArith QArith Lia Bool.
From stdpp Require Import base list strings pretty.

Local Open Scope Z_scope.

(** ** JavaScript values used by the program *)

(** A thrown value: either an [Error] instance (with its [name] and
    [message]) or anything else. *)
Inductive Thrown : Type :=
  | ErrorObj (name message : string)
  | NonError.

(** Completion of a call: a returned value or a thrown one. *)
Inductive Completion (A : Type) : Type :=
  | Returns (a : A)
  | Throws (e : Thrown).
Arguments Returns {A} a.
Arguments Throws {A} e.

(** ** Frame differencer ([drawAndCompare], the accumulation loop) *)

Module Differencer.

(** [Math.abs(a[i] - b[i])] on typed arrays: reading out of range yields
    [undefined] and the arithmetic yields [NaN]. *)
Definition abs_diff (a b : list Z) (i : nat) : option Z :=
  match a !! i, b !! i with
  | Some x, Some y => Some (Z.abs (x - y))
  | _, _ => None
  end.

Definition js_add (x y : option Z) : option Z :=
  match x, y with
  | Some a, Some b => Some (a + b)
  | _, _ => None
  end.

(** One pass of the loop body at index [i]:
    [Math.abs(c[i]-o[i]) + Math.abs(c[i+1]-o[i+1]) + Math.abs(c[i+2]-o[i+2])]. *)
Definition pixel_term (currentData oldData : list Z) (i : nat) : option Z :=
  js_add (js_add (abs_diff currentData oldData i)
                 (abs_diff currentData oldData (i + 1)))
         (abs_diff currentData oldData (i + 2)).

(** [for (let i = 0; i < currentData.length; i += 4) diff += ...].
    The first argument bounds the number of iterations; [length currentData]
    iterations always suffice. *)
Fixpoint diff_loop (fuel : nat) (currentData oldData : list Z)
    (i : nat) (diff : option Z) : option Z :=
  match fuel with
  | O => diff
  | S fuel' =>
      if (i <? length currentData)%nat
      then diff_loop fuel' currentData oldData (i + 4)
             (js_add diff (pixel_term currentData oldData i))
      else diff
  end.

Definition frame_diff (currentData oldData : list Z) : option Z :=
  diff_loop (length currentData) currentData oldData 0 (Some 0).

(** [diff / (currentData.length / 4)]; [0 / 0] is [NaN]. *)
Definition score (currentData oldData : list Z) : option Q :=
  match frame_diff currentData oldData with
  | Some d =>
      if (length currentData =? 0)%nat then None
      else Some (inject_Z d / (inject_Z (Z.of_nat (length currentData)) / 4))%Q
  | None => None
  end.

(** *** The specification's reading: a raster is a list of RGBA pixels *)

Record Pixel : Type := { red : Z; green : Z; blue : Z; alpha : Z }.

Definition flatten (p : Pixel) : list Z := [red p; green p; blue p; alpha p].

(** The RGBA byte buffer of a raster, as [getImageData(...).data] lays it out. *)
Definition buffer (ps : list Pixel) : list Z := concat (map flatten ps).

Definition pixel_delta (p q : Pixel) : Z :=
  Z.abs (red p - red q) + Z.abs (green p - green q) + Z.abs (blue p - blue q).

(** Sum over all pixels of |R1-R2| + |G1-G2| + |B1-B2|. *)
Fixpoint delta_sum (ps qs : list Pixel) : Z :=
  match ps, qs with
  | p :: ps', q :: qs' => pixel_delta p q + delta_sum ps' qs'
  | _, _ => 0
  end.

(** The specification's score: the sum divided by the pixel count. *)
Definition spec_score (ps qs : list Pixel) : Q :=
  (inject_Z (delta_sum ps qs) / inject_Z (Z.of_nat (length ps)))%Q.

(** Two pixels that agree on their colour channels (alpha is free). *)
Definition same_rgb (p q : Pixel) : Prop :=
  red p = red q /\ green p = green q /\ blue p = blue q.

(** Every colour channel of [p] differs from that of [q] by exactly [delta]. *)
Definition differs_by (delta : Z) (p q : Pixel) : Prop :=
  Z.abs (red p - red q) = delta /\
  Z.abs (green p - green q) = delta /\
  Z.abs (blue p - blue q) = delta.

End Differencer.

(** ** The analysis service ([services/geminiService.ts]) *)

Module GeminiService.

Local Open Scope string_scope.

Definition comma : Ascii.ascii := Ascii.ascii_of_nat 44.

(** The component of a string between its first and its second comma. *)
Fixpoint until_comma (s : string) : string :=
  match s with
  | EmptyString => EmptyString
  | String c s' => if Ascii.eqb c comma then EmptyString else String c (until_comma s')
  end.

(** [base64.split(',')[1]]: [undefined] when the string has no comma. *)
Fixpoint split_comma_1 (s : string) : option string :=
  match s with
  | EmptyString => None
  | String c s' => if Ascii.eqb c comma then Some (until_comma s') else split_comma_1 s'
  end.

Record InlineData : Type := { data : option string; mimeType : string }.

Inductive Part : Type :=
  | TextPart (text : string)
  | InlinePart (inlineData : InlineData).

Definition fileToGenerativePart (base64 mimeType : string) : Part :=
  InlinePart {| data := split_comma_1 base64; mimeType := mimeType |}.

Record Request : Type := { model : string; contents : list Part }.

(** [response.text]: a string or [undefined]. *)
Record GenerateContentResponse : Type := { text : option string }.

(** Every way the call [await ai.models.generateContent(...)] can end:
    the promise resolves (with a response object, or with [null] or
    [undefined]), the call throws before returning a promise, or the promise
    rejects. *)
Inductive ApiOutcome : Type :=
  | Resolved (response : option GenerateContentResponse)
  | ThrownSync (e : Thrown)
  | Rejected (e : Thrown).

Definition model_name : string := "gemini-3-flash-preview".
Definition prompt : string :=
  "Analise esta imagem de uma câmera de segurança. Descreva quaisquer pessoas, animais ou objetos significativos presentes. O que está acontecendo? Seja conciso e direto.".

(** The request that [analyzeImage] issues, once per invocation. *)
Definition analyzeImage_request (imageDataUrl : string) : Request :=
  {| model := model_name;
     contents := [TextPart prompt; fileToGenerativePart imageDataUrl "image/jpeg"] |}.

Definition empty_response : Thrown :=
  ErrorObj "Error" "A resposta da API está vazia ou malformada.".

(** The body of the [try] block, given how the API call ended. *)
Definition analyzeImage_try (outcome : ApiOutcome) : Completion string :=
  match outcome with
  | Resolved (Some response) =>
      match text response with
      | Some t => if String.eqb t "" then Throws empty_response else Returns t
      | None => Throws empty_response
      end
  | Resolved None => Throws empty_response
  | ThrownSync e => Throws e
  | Rejected e => Throws e
  end.

(** [analyzeImage]: the [try] block followed by the [catch] handler. *)
Definition analyzeImage (imageDataUrl : string) (outcome : ApiOutcome)
    : Completion string :=
  match analyzeImage_try outcome with
  | Returns t => Returns t
  | Throws (ErrorObj _ message) => Returns ("Erro na análise da IA: " +:+ message)
  | Throws NonError => Returns "Erro desconhecido na análise da IA."
  end.

(** The analysis call failed: network error, rejection, thrown error, or an
    empty or malformed response. *)
Definition failed (outcome : ApiOutcome) : bool :=
  match analyzeImage_try outcome with
  | Returns _ => false
  | Throws _ => true
  end.

End GeminiService.

(** ** The camera view (component [CameraView]) *)

Module App.

Import GeminiService.
Local Open Scope string_scope.

Definition MOTION_SENSITIVITY : Z := 50.
Definition COOLDOWN_SECONDS : Z := 10.

(** The two hidden canvases are 320 by 240. *)
Definition CANVAS_WIDTH : nat := 320.
Definition CANVAS_HEIGHT : nat := 240.

Record DetectionEvent : Type := {
  id : string;
  timestamp : Z;
  imageDataUrl : string;
  analysis : option string;
  isAnalyzing : bool
}.

(** Media streams and inbound calls are opaque browser objects; a number
    stands for the identity of each. *)
Definition MediaStream : Type := nat.
Definition MediaConnection : Type := nat.

(** An invocation of [handleMotionDetected] suspended at
    [await analyzeImage(imageDataUrl)]: what its continuation still refers
    to, namely [newEvent.id], the image, and the [isMonitoring] its closure
    captured. *)
Record Suspended : Type := {
  newEventId : string;
  image : string;
  closureMonitoring : bool
}.

(** The component's state: the [useState] cells, the [useRef] cells, and
    the part of the browser the component acts on.  ([peerId], [peerError]
    and [isLinkCopied] only feed the presentation and are left out.) *)
Record CameraView : Type := {
  (* useState *)
  isMonitoring : bool;
  events : list DetectionEvent;
  status : string;
  error : option string;
  hasCameraPermission : option bool;
  (* useRef *)
  lastDetectionTime : Z;
  mediaStreamRef : option MediaStream;
  pendingCalls : list MediaConnection;
  (* the callback registered by [requestAnimationFrame] and not yet run or
     cancelled, with the [isMonitoring] its closure captured *)
  animationFrame : option bool;
  (* pixel data of [oldCanvasRef], the previous-frame buffer *)
  oldCanvasData : list Z;
  (* [videoRef.current.srcObject] *)
  videoSrcObject : option MediaStream;
  (* browser side *)
  answered : list (MediaConnection * MediaStream);  (* [call.answer(stream)] made *)
  stoppedStreams : list MediaStream;                (* streams whose tracks were stopped *)
  apiRequests : list Request;                       (* [generateContent] calls issued *)
  awaiting : list Suspended;                        (* handlers awaiting their analysis *)
  cameraRequests : nat;                             (* [getUserMedia] promises not yet settled *)
  mediaDevicesSupported : bool                      (* [navigator.mediaDevices.getUserMedia] exists *)
}.

(** *** Field updates *)

Definition set_isMonitoring (v : bool) (s : CameraView) : CameraView :=
  {| isMonitoring := v; events := events s; status := status s;
     error := error s; hasCameraPermission := hasCameraPermission s;
     lastDetectionTime := lastDetectionTime s;
     mediaStreamRef := mediaStreamRef s; pendingCalls := pendingCalls s;
     animationFrame := animationFrame s; oldCanvasData := oldCanvasData s;
     videoSrcObject := videoSrcObject s; answered := answered s;
     stoppedStreams := stoppedStreams s; apiRequests := apiRequests s;
     awaiting := awaiting s; cameraRequests := cameraRequests s;
     mediaDevicesSupported := mediaDevicesSupported s |}.

Definition set_events (v : list DetectionEvent) (s : CameraView) : CameraView :=
  {| isMonitoring := isMonitoring s; events := v; status := status s;
     error := error s; hasCameraPermission := hasCameraPermission s;
     lastDetectionTime := lastDetectionTime s;
     mediaStreamRef := mediaStreamRef s; pendingCalls := pendingCalls s;
     animationFrame := animationFrame s; oldCanvasData := oldCanvasData s;
     videoSrcObject := videoSrcObject s; answered := answered s;
     stoppedStreams := stoppedStreams s; apiRequests := apiRequests s;
     awaiting := awaiting s; cameraRequests := cameraRequests s;
     mediaDevicesSupported := mediaDevicesSupported s |}.

Definition set_status (v : string) (s : CameraView) : CameraView :=
  {| isMonitoring := isMonitoring s; events := events s; status := v;
     error := error s; hasCameraPermission := hasCameraPermission s;
     lastDetectionTime := lastDetectionTime s;
     mediaStreamRef := mediaStreamRef s; pendingCalls := pendingCalls s;
     animationFrame := animationFrame s; oldCanvasData := oldCanvasData s;
     videoSrcObject := videoSrcObject s; answered := answered s;
     stoppedStreams := stoppedStreams s; apiRequests := apiRequests s;
     awaiting := awaiting s; cameraRequests := cameraRequests s;
     mediaDevicesSupported := mediaDevicesSupported s |}.

Definition set_error (v : option string) (s : CameraView) : CameraView :=
  {| isMonitoring := isMonitoring s; events := events s; status := status s;
     error := v; hasCameraPermission := hasCameraPermission s;
     lastDetectionTime := lastDetectionTime s;
     mediaStreamRef := mediaStreamRef s; pendingCalls := pendingCalls s;
     animationFrame := animationFrame s; oldCanvasData := oldCanvasData s;
     videoSrcObject := videoSrcObject s; answered := answered s;
     stoppedStreams := stoppedStreams s; apiRequests := apiRequests s;
     awaiting := awaiting s; cameraRequests := cameraRequests s;
     mediaDevicesSupported := mediaDevicesSupported s |}.

Definition set_hasCameraPermission (v : option bool) (s : CameraView) : CameraView :=
  {| isMonitoring := isMonitoring s; events := events s; status := status s;
     error := error s; hasCameraPermission := v;
     lastDetectionTime := lastDetectionTime s;
     mediaStreamRef := mediaStreamRef s; pendingCalls := pendingCalls s;
     animationFrame := animationFrame s; oldCanvasData := oldCanvasData s;
     videoSrcObject := videoSrcObject s; answered := answered s;
     stoppedStreams := stoppedStreams s; apiRequests := apiRequests s;
     awaiting := awaiting s; cameraRequests := cameraRequests s;
     mediaDevicesSupported := mediaDevicesSupported s |}.

Definition set_lastDetectionTime (v : Z) (s : CameraView) : CameraView :=
  {| isMonitoring := isMonitoring s; events := events s; status := status s;
     error := error s; hasCameraPermission := hasCameraPermission s;
     lastDetectionTime := v; mediaStreamRef := mediaStreamRef s;
     pendingCalls := pendingCalls s; animationFrame := animationFrame s;
     oldCanvasData := oldCanvasData s; videoSrcObject := videoSrcObject s;
     answered := answered s; stoppedStreams := stoppedStreams s;
     apiRequests := apiRequests s; awaiting := awaiting s;
     cameraRequests := cameraRequests s;
     mediaDevicesSupported := mediaDevicesSupported s |}.

Definition set_mediaStreamRef (v : option MediaStream) (s : CameraView) : CameraView :=
  {| isMonitoring := isMonitoring s; events := events s; status := status s;
     error := error s; hasCameraPermission := hasCameraPermission s;
     lastDetectionTime := lastDetectionTime s; mediaStreamRef := v;
     pendingCalls := pendingCalls s; animationFrame := animationFrame s;
     oldCanvasData := oldCanvasData s; videoSrcObject := videoSrcObject s;
     answered := answered s; stoppedStreams := stoppedStreams s;
     apiRequests := apiRequests s; awaiting := awaiting s;
     cameraRequests := cameraRequests s;
     mediaDevicesSupported := mediaDevicesSupported s |}.

Definition set_pendingCalls (v : list MediaConnection) (s : CameraView) : CameraView :=
  {| isMonitoring := isMonitoring s; events := events s; status := status s;
     error := error s; hasCameraPermission := hasCameraPermission s;
     lastDetectionTime := lastDetectionTime s;
     mediaStreamRef := mediaStreamRef s; pendingCalls := v;
     animationFrame := animationFrame s; oldCanvasData := oldCanvasData s;
     videoSrcObject := videoSrcObject s; answered := answered s;
     stoppedStreams := stoppedStreams s; apiRequests := apiRequests s;
     awaiting := awaiting s; cameraRequests := cameraRequests s;
     mediaDevicesSupported := mediaDevicesSupported s |}.

Definition set_animationFrame (v : option bool) (s : CameraView) : CameraView :=
  {| isMonitoring := isMonitoring s; events := events s; status := status s;
     error := error s; hasCameraPermission := hasCameraPermission s;
     lastDetectionTime := lastDetectionTime s;
     mediaStreamRef := mediaStreamRef s; pendingCalls := pendingCalls s;
     animationFrame := v; oldCanvasData := oldCanvasData s;
     videoSrcObject := videoSrcObject s; answered := answered s;
     stoppedStreams := stoppedStreams s; apiRequests := apiRequests s;
     awaiting := awaiting s; cameraRequests := cameraRequests s;
     mediaDevicesSupported := mediaDevicesSupported s |}.

Definition set_oldCanvasData (v : list Z) (s : CameraView) : CameraView :=
  {| isMonitoring := isMonitoring s; events := events s; status := status s;
     error := error s; hasCameraPermission := hasCameraPermission s;
     lastDetectionTime := lastDetectionTime s;
     mediaStreamRef := mediaStreamRef s; pendingCalls := pendingCalls s;
     animationFrame := animationFrame s; oldCanvasData := v;
     videoSrcObject := videoSrcObject s; answered := answered s;
     stoppedStreams := stoppedStreams s; apiRequests := apiRequests s;
     awaiting := awaiting s; cameraRequests := cameraRequests s;
     mediaDevicesSupported := mediaDevicesSupported s |}.

Definition set_videoSrcObject (v : option MediaStream) (s : CameraView) : CameraView :=
  {| isMonitoring := isMonitoring s; events := events s; status := status s;
     error := error s; hasCameraPermission := hasCameraPermission s;
     lastDetectionTime := lastDetectionTime s;
     mediaStreamRef := mediaStreamRef s; pendingCalls := pendingCalls s;
     animationFrame := animationFrame s; oldCanvasData := oldCanvasData s;
     videoSrcObject := v; answered := answered s;
     stoppedStreams := stoppedStreams s; apiRequests := apiRequests s;
     awaiting := awaiting s; cameraRequests := cameraRequests s;
     mediaDevicesSupported := mediaDevicesSupported s |}.

Definition set_answered (v : list (MediaConnection * MediaStream)) (s : CameraView) : CameraView :=
  {| isMonitoring := isMonitoring s; events := events s; status := status s;
     error := error s; hasCameraPermission := hasCameraPermission s;
     lastDetectionTime := lastDetectionTime s;
     mediaStreamRef := mediaStreamRef s; pendingCalls := pendingCalls s;
     animationFrame := animationFrame s; oldCanvasData := oldCanvasData s;
     videoSrcObject := videoSrcObject s; answered := v;
     stoppedStreams := stoppedStreams s; apiRequests := apiRequests s;
     awaiting := awaiting s; cameraRequests := cameraRequests s;
     mediaDevicesSupported := mediaDevicesSupported s |}.

Definition set_stoppedStreams (v : list MediaStream) (s : CameraView) : CameraView :=
  {| isMonitoring := isMonitoring s; events := events s; status := status s;
     error := error s; hasCameraPermission := hasCameraPermission s;
     lastDetectionTime := lastDetectionTime s;
     mediaStreamRef := mediaStreamRef s; pendingCalls := pendingCalls s;
     animationFrame := animationFrame s; oldCanvasData := oldCanvasData s;
     videoSrcObject := videoSrcObject s; answered := answered s;
     stoppedStreams := v; apiRequests := apiRequests s;
     awaiting := awaiting s; cameraRequests := cameraRequests s;
     mediaDevicesSupported := mediaDevicesSupported s |}.

Definition set_apiRequests (v : list GeminiService.Request) (s : CameraView) : CameraView :=
  {| isMonitoring := isMonitoring s; events := events s; status := status s;
     error := error s; hasCameraPermission := hasCameraPermission s;
     lastDetectionTime := lastDetectionTime s;
     mediaStreamRef := mediaStreamRef s; pendingCalls := pendingCalls s;
     animationFrame := animationFrame s; oldCanvasData := oldCanvasData s;
     videoSrcObject := videoSrcObject s; answered := answered s;
     stoppedStreams := stoppedStreams s; apiRequests := v;
     awaiting := awaiting s; cameraRequests := cameraRequests s;
     mediaDevicesSupported := mediaDevicesSupported s |}.

Definition set_awaiting (v : list Suspended) (s : CameraView) : CameraView :=
  {| isMonitoring := isMonitoring s; events := events s; status := status s;
     error := error s; hasCameraPermission := hasCameraPermission s;
     lastDetectionTime := lastDetectionTime s;
     mediaStreamRef := mediaStreamRef s; pendingCalls := pendingCalls s;
     animationFrame := animationFrame s; oldCanvasData := oldCanvasData s;
     videoSrcObject := videoSrcObject s; answered := answered s;
     stoppedStreams := stoppedStreams s; apiRequests := apiRequests s;
     awaiting := v; cameraRequests := cameraRequests s;
     mediaDevicesSupported := mediaDevicesSupported s |}.

Definition set_cameraRequests (v : nat) (s : CameraView) : CameraView :=
  {| isMonitoring := isMonitoring s; events := events s; status := status s;
     error := error s; hasCameraPermission := hasCameraPermission s;
     lastDetectionTime := lastDetectionTime s;
     mediaStreamRef := mediaStreamRef s; pendingCalls := pendingCalls s;
     animationFrame := animationFrame s; oldCanvasData := oldCanvasData s;
     videoSrcObject := videoSrcObject s; answered := answered s;
     stoppedStreams := stoppedStreams s; apiRequests := apiRequests s;
     awaiting := awaiting s; cameraRequests := v;
     mediaDevicesSupported := mediaDevicesSupported s |}.

(** A fresh canvas is transparent black: every byte of its pixel data is 0. *)
Definition blank_pixel : Differencer.Pixel :=
  {| Differencer.red := 0; Differencer.green := 0;
     Differencer.blue := 0; Differencer.alpha := 0 |}.

Definition blank_canvas : list Z :=
  Differencer.buffer (repeat blank_pixel (CANVAS_WIDTH * CANVAS_HEIGHT)).

(** The state once the component is mounted and its first effects have run. *)
Definition mounted (supported : bool) : CameraView :=
  {| isMonitoring := false; events := []; status := "Parado"; error := None;
     hasCameraPermission := None; lastDetectionTime := 0;
     mediaStreamRef := None; pendingCalls := []; animationFrame := None;
     oldCanvasData := blank_canvas; videoSrcObject := None; answered := [];
     stoppedStreams := []; apiRequests := []; awaiting := [];
     cameraRequests := 0; mediaDevicesSupported := supported |}.

(** *** Stream session manager *)

(** [peer.on('call', (call) => ...)]. *)
Definition onCall (call : MediaConnection) (s : CameraView) : CameraView :=
  match mediaStreamRef s with
  | Some stream => set_answered (answered s ++ [(call, stream)]) s
  | None => set_pendingCalls (pendingCalls s ++ [call]) s
  end.

Definition cleanupCamera (s : CameraView) : CameraView :=
  let s1 := match mediaStreamRef s with
            | Some stream => set_stoppedStreams (stoppedStreams s ++ [stream]) s
            | None => s
            end in
  set_mediaStreamRef None (set_videoSrcObject None s1).

(** [setupCamera] from the point where [getUserMedia] resolved with
    [stream] to the end of the [try] block. *)
Definition setupCamera_resolved (stream : MediaStream) (s : CameraView)
    : CameraView :=
  let s1 := set_videoSrcObject (Some stream) s in
  let s2 := set_mediaStreamRef (Some stream) s1 in
  let s3 := set_hasCameraPermission (Some true) s2 in
  let s4 := set_answered
              (answered s3 ++ map (fun call => (call, stream)) (pendingCalls s3)) s3 in
  set_pendingCalls [] s4.

Definition camera_error_message (err : Thrown) : string :=
  match err with
  | ErrorObj name message =>
      if String.eqb name "NotAllowedError" then "Permissão para câmera negada."
      else "Erro ao acessar câmera: " +:+ message
  | NonError => "Ocorreu um erro desconhecido ao acessar a câmera."
  end.

(** The [catch] block of [setupCamera]. *)
Definition setupCamera_catch (err : Thrown) (s : CameraView) : CameraView :=
  cleanupCamera
    (set_hasCameraPermission (Some false)
       (set_error (Some (camera_error_message err)) s)).

(** [setupCamera] up to its [await]: either [getUserMedia] is called and its
    promise is pending, or the API is missing and the [catch] block runs at
    once. *)
Definition setupCamera (s : CameraView) : CameraView :=
  let s1 := set_error None s in
  if mediaDevicesSupported s1
  then set_cameraRequests (S (cameraRequests s1)) s1
  else setupCamera_catch
         (ErrorObj "Error" "A API da câmera não é suportada neste navegador.") s1.

(** *** Analysis pipeline and cooldown gate ([handleMotionDetected]) *)

(** [now.toString()] of an integer clock reading is its decimal numeral,
    which is what [pretty] prints. *)
Definition newEvent (imageDataUrl : string) (now date : Z) : DetectionEvent :=
  {| id := pretty now; timestamp := date; imageDataUrl := imageDataUrl;
     analysis := None; isAnalyzing := true |}.

(** From the creation of [newEvent] to the [await]: the event is prepended,
    the status changes, [analyzeImage] issues its request and the handler
    suspends. *)
Definition submit (m : bool) (imageDataUrl : string) (now date : Z)
    (s : CameraView) : CameraView :=
  let e := newEvent imageDataUrl now date in
  let s1 := set_events (e :: events s) s in
  let s2 := set_status "Analisando Imagem..." s1 in
  let s3 := set_apiRequests (apiRequests s2 ++ [analyzeImage_request imageDataUrl]) s2 in
  set_awaiting
    (awaiting s3 ++ [{| newEventId := id e; image := imageDataUrl;
                        closureMonitoring := m |}]) s3.

(** [handleMotionDetected] as created by a render in which [isMonitoring]
    was [m]; [now] is the value of [Date.now()], [date] that of
    [new Date()]. *)
Definition handleMotionDetected (m : bool) (imageDataUrl : string)
    (now date : Z) (s : CameraView) : CameraView :=
  if (now - lastDetectionTime s <? COOLDOWN_SECONDS * 1000)%Z then s
  else submit m imageDataUrl now date (set_lastDetectionTime now s).

(** [p.map(e => e.id === newEvent.id
              ? { ...e, analysis: description, isAnalyzing: false } : e)]. *)
Definition write_analysis (eventId description : string)
    (p : list DetectionEvent) : list DetectionEvent :=
  map (fun e =>
         if String.eqb (id e) eventId
         then {| id := id e; timestamp := timestamp e;
                 imageDataUrl := imageDataUrl e;
                 analysis := Some description; isAnalyzing := false |}
         else e) p.

(** The continuation of a suspended handler once [analyzeImage] has
    completed with [r]: the rest of [try], or [catch], then [finally]. *)
Definition handleMotionDetected_resume (h : Suspended) (r : Completion string)
    (s : CameraView) : CameraView :=
  let s1 :=
    match r with
    | Returns description =>
        set_events (write_analysis (newEventId h) description (events s)) s
    | Throws _ =>
        set_events
          (write_analysis (newEventId h) "Falha ao analisar a imagem." (events s)) s
    end in
  if closureMonitoring h then set_status "Monitorando..." s1 else s1.

(** The analysis call of the [k]-th suspended handler ends with [outcome]. *)
Definition analysisSettled (k : nat) (outcome : ApiOutcome) (s : CameraView)
    : CameraView :=
  match awaiting s !! k with
  | Some h =>
      handleMotionDetected_resume h (analyzeImage (image h) outcome)
        (set_awaiting (delete k (awaiting s)) s)
  | None => s
  end.

(** *** Detection loop *)

(** What the browser hands to one tick: the pixel data read back from the
    canvas after drawing the video ([None] when [video.readyState !== 4]),
    the JPEG data URL of the canvas, [Date.now()] and [new Date()]. *)
Record Tick : Type := {
  frame : option (list Z);
  dataUrl : string;
  now : Z;
  date : Z
}.

(** [diff / (currentData.length / 4) > MOTION_SENSITIVITY]; a comparison
    with [NaN] is false. *)
Definition exceeds (currentData oldData : list Z) : bool :=
  match Differencer.score currentData oldData with
  | Some q => negb (Qle_bool q (inject_Z MOTION_SENSITIVITY))
  | None => false
  end.

(** [drawAndCompare]; a video element without a source is never ready. *)
Definition drawAndCompare (m : bool) (t : Tick) (s : CameraView) : CameraView :=
  match videoSrcObject s, frame t with
  | Some _, Some currentData =>
      let oldData := oldCanvasData s in
      let s1 :=
        if exceeds currentData oldData
        then handleMotionDetected m (dataUrl t) (now t) (date t)
               (set_status "Movimento Detectado!" s)
        else s in
      set_oldCanvasData currentData s1
  | _, _ => s
  end.

(** [detectionLoop] as created by a render in which [isMonitoring] was [m]. *)
Definition detectionLoop (m : bool) (t : Tick) (s : CameraView) : CameraView :=
  if negb m then s
  else set_animationFrame (Some m) (drawAndCompare m t s).

(** The browser runs the registered animation-frame callback, if any. *)
Definition onAnimationFrame (t : Tick) (s : CameraView) : CameraView :=
  match animationFrame s with
  | Some m => detectionLoop m t (set_animationFrame None s)
  | None => s
  end.

(** *** Effects *)

Definition cancelAnimationFrame (s : CameraView) : CameraView :=
  set_animationFrame None s.

(** JavaScript truthiness of [hasCameraPermission : boolean | null]. *)
Definition truthy (p : option bool) : bool :=
  match p with
  | Some true => true
  | _ => false
  end.

Definition perm_eqb (a b : option bool) : bool :=
  match a, b with
  | Some x, Some y => Bool.eqb x y
  | None, None => true
  | _, _ => false
  end.

(** Body of the effect on [isMonitoring, setupCamera, cleanupCamera]; its
    cleanup is [cleanupCamera]. *)
Definition cameraEffect (mon : bool) (s : CameraView) : CameraView :=
  if mon then setupCamera s else cleanupCamera s.

(** Body of the effect on [isMonitoring, hasCameraPermission, detectionLoop];
    its cleanup is [cancelAnimationFrame]. *)
Definition loopEffect (mon : bool) (perm : option bool) (s : CameraView)
    : CameraView :=
  if mon && truthy perm
  then set_animationFrame (Some mon)
         (set_lastDetectionTime 0 (set_status "Monitorando..." s))
  else
    let s1 := cancelAnimationFrame s in
    if negb mon then set_status "Parado" s1 else s1.

(** One commit: the render sees [isMonitoring s] and [hasCameraPermission s];
    the previous commit saw [prevMon] and [prevPerm].  Cleanups of the
    effects whose dependencies changed run first, then their bodies.
    ([detectionLoop] changes exactly when [isMonitoring] does; [setupCamera]
    and [cleanupCamera] never change.) *)
Definition runEffects (prevMon : bool) (prevPerm : option bool)
    (s : CameraView) : CameraView :=
  let mon := isMonitoring s in
  let perm := hasCameraPermission s in
  let e1 := negb (Bool.eqb prevMon mon) in
  let e2 := e1 || negb (perm_eqb prevPerm perm) in
  let s1 := if e1 then cleanupCamera s else s in
  let s2 := if e2 then cancelAnimationFrame s1 else s1 in
  let s3 := if e1 then cameraEffect mon s2 else s2 in
  if e2 then loopEffect mon perm s3 else s3.

(** Commit after a state update, and once more for the state an effect body
    may have set ([setupCamera] can reach its [catch] block at once). *)
Definition commit (prevMon : bool) (prevPerm : option bool) (s : CameraView)
    : CameraView :=
  runEffects (isMonitoring s) (hasCameraPermission s)
    (runEffects prevMon prevPerm s).

(** *** Transitions of the component *)

Inductive Action : Type :=
  | ToggleMonitoring
  | GetUserMediaResolved (stream : MediaStream)
  | GetUserMediaRejected (err : Thrown)
  | AnimationFrame (t : Tick)
  | InboundCall (call : MediaConnection)
  | AnalysisSettled (k : nat) (outcome : ApiOutcome).

Definition step (a : Action) (s : CameraView) : CameraView :=
  match a with
  | ToggleMonitoring =>
      commit (isMonitoring s) (hasCameraPermission s)
        (set_isMonitoring (negb (isMonitoring s)) s)
  | GetUserMediaResolved stream =>
      match cameraRequests s with
      | S n =>
          commit (isMonitoring s) (hasCameraPermission s)
            (setupCamera_resolved stream (set_cameraRequests n s))
      | O => s
      end
  | GetUserMediaRejected err =>
      match cameraRequests s with
      | S n =>
          commit (isMonitoring s) (hasCameraPermission s)
            (setupCamera_catch err (set_cameraRequests n s))
      | O => s
      end
  | AnimationFrame t => onAnimationFrame t s
  | InboundCall call => onCall call s
  | AnalysisSettled k outcome => analysisSettled k outcome s
  end.

Fixpoint run (acts : list Action) (s : CameraView) : CameraView :=
  match acts with
  | [] => s
  | a :: acts' => run acts' (step a s)
  end.

(** *** The analysis pipeline on its own

    Submissions (the part of [handleMotionDetected] after the gate) and
    completions of analysis calls, in any interleaving. *)

Inductive PipelineAction : Type :=
  | Submit (imageDataUrl : string) (now date : Z)
  | Settle (k : nat) (outcome : ApiOutcome).




(** The ids of the events whose [analysis] and [isAnalyzing] fields an
    action assigns: those the predicate [e.id === newEvent.id] of the
    [map] selects. *)
Definition step_writes (a : PipelineAction) (s : CameraView) : list string :=
  match a with
  | Submit _ _ _ => []
  | Settle k _ =>
      match awaiting s !! k with
      | Some h => filter (fun d => d = newEventId h) (map id (events s))
      | None => []
      end
  end.


(** Number of assignments to the event with id [d]. *)
Definition writes_to (d : string) (log : list string) : nat :=
  length (filter (fun x => x = d) log).

(** *** Inbound calls delivered by a list of actions, in order *)

Fixpoint arrivals (acts : list Action) : list MediaConnection :=
  match acts with
  | [] => []
  | InboundCall call :: acts' => call :: arrivals acts'
  | _ :: acts' => arrivals acts'
  end.

(** *** A bright first frame *)

Definition white_pixel : Differencer.Pixel :=
  {| Differencer.red := 255; Differencer.green := 255;
     Differencer.blue := 255; Differencer.alpha := 255 |}.

Definition white_frame : list Z :=
  Differencer.buffer (repeat white_pixel (CANVAS_WIDTH * CANVAS_HEIGHT)).

Definition white_tick : Tick :=
  {| frame := Some white_frame; dataUrl := "data:image/jpeg;base64,/9j/4AAQ";
     now := 1700000000000; date := 1700000000000 |}.

(** *** Predicates used to state the properties *)

(** The same capture: id, timestamp and image agree. *)
Definition same_capture (e e' : DetectionEvent) : Prop :=
  id e = id e' /\ timestamp e = timestamp e' /\ imageDataUrl e = imageDataUrl e'.

(** Toggles, camera outcomes and inbound calls: every action that is neither
    a tick nor the completion of an analysis call. *)
Definition lifecycle (a : Action) : Prop :=
  match a with
  | AnimationFrame _ | AnalysisSettled _ _ => False
  | _ => True
  end.

(** Calls answered so far followed by calls still queued. *)
Definition call_ledger (s : CameraView) : list MediaConnection :=
  map fst (answered s) ++ pendingCalls s.

(** The loop is scheduled only while monitoring with permission. *)
Definition loop_scheduled_ok (s : CameraView) : Prop :=
  animationFrame s = None \/
  (animationFrame s = Some true /\ isMonitoring s = true /\
   hasCameraPermission s = Some true).

(** Every suspended handler refers to an event that is in the list. *)
Definition awaiting_have_events (s : CameraView) : Prop :=
  forall h : Suspended, h ∈ awaiting s -> newEventId h ∈ map id (events s).

(** What holds of the pipeline after any interleaving of submissions and
    completions, [log] being the assignments made so far. *)
Definition pipeline_inv (s : CameraView) (log : list string) : Prop :=
  NoDup (map id (events s)) /\
  NoDup (map newEventId (awaiting s)) /\
  (forall h : Suspended, h ∈ awaiting s -> newEventId h ∈ map id (events s)) /\
  (forall d : string, d ∈ log -> d ∈ map id (events s)) /\
  (forall e : DetectionEvent,
      e ∈ events s ->
      (isAnalyzing e = true <-> id e ∈ map newEventId (awaiting s)) /\
      (isAnalyzing e = true -> analysis e = None) /\
      (isAnalyzing e = false -> analysis e <> None) /\
      writes_to (id e) log = if isAnalyzing e then 0%nat else 1%nat).

(** The clock read by each tick is later than the one read by the tick
    before it ([lo] bounds the readings made so far). *)
Fixpoint clocks_increase (lo : Z) (acts : list Action) : Prop :=
  match acts with
  | [] => True
  | AnimationFrame t :: acts' => lo < now t /\ clocks_increase (now t) acts'
  | _ :: acts' => clocks_increase lo acts'
  end.

(** Event ids are distinct and were derived from clock readings up to [lo]. *)
Definition ids_from_clock (lo : Z) (s : CameraView) : Prop :=
  NoDup (map id (events s)) /\
  forall d : string, d ∈ map id (events s) ->
    exists t : Z, d = pretty t /\ t <= lo.

(** A handler waiting for the analysis of the event created by [white_tick]. *)
Definition white_handler : Suspended :=
  {| newEventId := pretty (now white_tick); image := dataUrl white_tick;
     closureMonitoring := true |}.

End App.

(** ** What the camera view displays ([StatusDisplay], [EventCard] and the
    permission overlay of [CameraView]) *)

Module Display.

Import App.
Local Open Scope string_scope.

Inductive Icon : Type := CheckCircle | AlertTriangle | Loader | Power.

Record StatusStyle : Type := { icon : Icon; textColor : string; spin : bool }.

(** The [switch] of [StatusDisplay], and the [animate-spin] class of its
    icon. *)
Definition StatusDisplay (status : string) : StatusStyle :=
  let spinning := String.eqb status "Analisando Imagem..." in
  if String.eqb status "Monitorando..."
  then {| icon := CheckCircle; textColor := "text-green-400"; spin := spinning |}
  else if String.eqb status "Movimento Detectado!"
  then {| icon := AlertTriangle; textColor := "text-yellow-400"; spin := spinning |}
  else if String.eqb status "Analisando Imagem..."
  then {| icon := Loader; textColor := "text-blue-400"; spin := spinning |}
  else {| icon := Power; textColor := "text-red-400"; spin := spinning |}.

(** The status texts the component ever sets. *)
Definition status_vocabulary : list string :=
  ["Parado"; "Monitorando..."; "Movimento Detectado!"; "Analisando Imagem..."].

(** The lower part of an event card: the spinner row, or a paragraph. *)
Inductive CardBody : Type :=
  | Spinner
  | Description (text : string).

(** [a || fallback] for [a : string | null]. *)
Definition or_else (a : option string) (fallback : string) : string :=
  match a with
  | Some s => if String.eqb s "" then fallback else s
  | None => fallback
  end.

Definition EventCard (event : DetectionEvent) : CardBody :=
  if isAnalyzing event then Spinner
  else Description (or_else (analysis event) "Não foi possível analisar a imagem.").

(** The overlay drawn over the video:
    [!hasCameraPermission && isMonitoring && (error ? ... : ...)]. *)
Inductive Overlay : Type :=
  | NoOverlay
  | ErrorOverlay (message : string)
  | WaitingOverlay.

Definition cameraOverlay (s : CameraView) : Overlay :=
  if negb (truthy (hasCameraPermission s)) && isMonitoring s
  then match error s with
       | Some e => if String.eqb e "" then WaitingOverlay else ErrorOverlay e
       | None => WaitingOverlay
       end
  else NoOverlay.

End Display.

(** ** The share panel of the camera view ([peerId], [shareableLink],
    [copyLink]) *)

Module Share.

Local Open Scope string_scope.

(** [window.location.origin] and [window.location.pathname]. *)
Record Location : Type := { origin : string; pathname : string }.

Record SharePanel : Type := {
  peerId : option string;
  isLinkCopied : bool;
  written : list string;   (* arguments of [navigator.clipboard.writeText] *)
  pendingWrites : nat;     (* [writeText] promises not yet settled *)
  timers : nat             (* [setTimeout] callbacks not yet run *)
}.

Definition initial : SharePanel :=
  {| peerId := None; isLinkCopied := false; written := [];
     pendingWrites := 0; timers := 0 |}.

(** [peerId ? `${origin}${pathname}?view=${peerId}` : ''] *)
Definition shareableLink (loc : Location) (peerId : option string) : string :=
  match peerId with
  | Some p =>
      if String.eqb p "" then ""
      else origin loc +:+ pathname loc +:+ "?view=" +:+ p
  | None => ""
  end.

Definition copyLink (loc : Location) (s : SharePanel) : SharePanel :=
  let link := shareableLink loc (peerId s) in
  if String.eqb link "" then s
  else {| peerId := peerId s; isLinkCopied := isLinkCopied s;
          written := written s ++ [link];
          pendingWrites := S (pendingWrites s); timers := timers s |}.

Inductive Action : Type :=
  | PeerOpened (id : string)   (* [peer.on('open', (id) => setPeerId(id))] *)
  | CopyLink
  | WriteResolved
  | WriteRejected
  | TimerFired.

Definition step (loc : Location) (a : Action) (s : SharePanel) : SharePanel :=
  match a with
  | PeerOpened id =>
      {| peerId := Some id; isLinkCopied := isLinkCopied s;
         written := written s; pendingWrites := pendingWrites s;
         timers := timers s |}
  | CopyLink => copyLink loc s
  | WriteResolved =>
      match pendingWrites s with
      | S n =>
          {| peerId := peerId s; isLinkCopied := true; written := written s;
             pendingWrites := n; timers := S (timers s) |}
      | O => s
      end
  | WriteRejected =>
      match pendingWrites s with
      | S n =>
          {| peerId := peerId s; isLinkCopied := isLinkCopied s;
             written := written s; pendingWrites := n; timers := timers s |}
      | O => s
      end
  | TimerFired =>
      match timers s with
      | S n =>
          {| peerId := peerId s; isLinkCopied := false; written := written s;
             pendingWrites := pendingWrites s; timers := n |}
      | O => s
      end
  end.

Fixpoint run (loc : Location) (acts : list Action) (s : SharePanel)
    : SharePanel :=
  match acts with
  | [] => s
  | a :: acts' => run loc acts' (step loc a s)
  end.

(** The ids the signalling service has delivered. *)
Fixpoint opened (acts : list Action) : list string :=
  match acts with
  | [] => []
  | PeerOpened id :: acts' => id :: opened acts'
  | _ :: acts' => opened acts'
  end.

(** A link as the panel builds it, for a non-empty id among [ids]. *)
Definition link_of (loc : Location) (ids : list string) (w : string) : Prop :=
  exists id : string,
    id ∈ ids /\ id <> "" /\ w = origin loc +:+ pathname loc +:+ "?view=" +:+ id.

(** What holds of the panel at every moment, [ids] being the ids delivered
    so far. *)
Definition panel_inv (loc : Location) (ids : list string) (s : SharePanel)
    : Prop :=
  (isLinkCopied s = true -> timers s <> 0%nat) /\
  (forall w : string, w ∈ written s -> link_of loc ids w) /\
  (forall p : string, peerId s = Some p -> p ∈ ids).

End Share.

(** ** The viewer ([Viewer]) *)

Module Viewer.

Local Open Scope string_scope.

Inductive PeerState : Type := NoPeer | Created | Destroyed.

Record ViewerState : Type := {
  status : string;
  error : option string;
  srcObject : option App.MediaStream;   (* [videoRef.current.srcObject] *)
  peer : PeerState;                     (* [peerRef.current] *)
  isMounted : bool;
  calls : list string                   (* targets of [peer.call] *)
}.

Definition initial : ViewerState :=
  {| status := "Conectando à câmera..."; error := None; srcObject := None;
     peer := NoPeer; isMounted := true; calls := [] |}.

Definition update (st : string) (er : option string)
    (src : option App.MediaStream) (v : ViewerState) : ViewerState :=
  {| status := st; error := er; srcObject := src; peer := peer v;
     isMounted := isMounted v; calls := calls v |}.

(** What the environment delivers: the dynamic import resolves, the peer
    opens, the call yields the remote stream, closes or fails, the peer
    fails, the component unmounts. *)
Inductive Action : Type :=
  | ImportResolved
  | PeerOpen
  | CallStream (remoteStream : App.MediaStream)
  | CallClose
  | CallError
  | PeerError (type : string)
  | Unmount.

(** One transition of a viewer mounted with [peerId].  Callbacks of the peer
    exist once the peer does, those of the call once a call was placed; a
    state update after the unmount has no effect. *)
Definition step (peerId : string) (a : Action) (v : ViewerState) : ViewerState :=
  match a with
  | ImportResolved =>
      if negb (isMounted v) then v
      else match peer v with
           | NoPeer =>
               {| status := status v; error := error v; srcObject := srcObject v;
                  peer := Created; isMounted := isMounted v; calls := calls v |}
           | _ => v
           end
  | Unmount =>
      {| status := status v; error := error v; srcObject := srcObject v;
         peer := match peer v with Created => Destroyed | p => p end;
         isMounted := false; calls := calls v |}
  | PeerOpen =>
      match isMounted v, peer v with
      | true, Created =>
          if String.eqb peerId ""
          then update "Erro" (Some "Nenhum ID de câmera fornecido.") (srcObject v) v
          else {| status := status v; error := error v; srcObject := srcObject v;
                  peer := peer v; isMounted := isMounted v;
                  calls := calls v ++ [peerId] |}
      | _, _ => v
      end
  | CallStream remoteStream =>
      match isMounted v, calls v with
      | true, _ :: _ => update "Conectado" None (Some remoteStream) v
      | _, _ => v
      end
  | CallClose =>
      match isMounted v, calls v with
      | true, _ :: _ => update "Câmera desconectada" (error v) (srcObject v) v
      | _, _ => v
      end
  | CallError =>
      match isMounted v, calls v with
      | true, _ :: _ =>
          update "Erro de conexão"
            (Some "Não foi possível conectar à câmera. Verifique se o link está correto e se a câmera está ativa e monitorando.")
            (srcObject v) v
      | _, _ => v
      end
  | PeerError type =>
      match isMounted v, peer v with
      | true, Created =>
          update "Erro"
            (Some ("Erro de conexão P2P (" +:+ type
                   +:+ "). A câmera pode estar offline ou o ID ser inválido."))
            (srcObject v) v
      | _, _ => v
      end
  end.

Fixpoint run (peerId : string) (acts : list Action) (v : ViewerState)
    : ViewerState :=
  match acts with
  | [] => v
  | a :: acts' => run peerId acts' (step peerId a v)
  end.

(** The overlay that covers the video: [opacity: status !== 'Conectado' ? 1 : 0]. *)
Definition overlay_visible (v : ViewerState) : bool :=
  negb (String.eqb (status v) "Conectado").

(** What holds of a viewer mounted with [peerId] at every moment. *)
Definition viewer_inv (peerId : string) (v : ViewerState) : Prop :=
  (status v = "Conectado" ->
   error v = None /\ srcObject v <> None /\ calls v <> []) /\
  (error v = None ->
   status v ∈ ["Conectando à câmera..."; "Conectado"; "Câmera desconectada"]) /\
  (forall c : string, c ∈ calls v -> c = peerId /\ peerId <> "") /\
  (calls v <> [] -> peer v <> NoPeer) /\
  (error v = Some "Nenhum ID de câmera fornecido." -> peerId = "") /\
  (srcObject v <> None -> calls v <> []).

End Viewer.

(** ** The router ([App]) *)

Module Router.

Local Open Scope string_scope.

Record AppState : Type := { viewPeerId : option string; isReady : bool }.

Definition initial : AppState := {| viewPeerId := None; isReady := false |}.

(** The mount effect; [view] is [urlParams.get('view')]. *)
Definition mountEffect (view : option string) (a : AppState) : AppState :=
  {| viewPeerId := view; isReady := true |}.

Inductive Screen : Type :=
  | LoaderScreen
  | ViewerScreen (peerId : string)
  | CameraScreen.

Definition render (a : AppState) : Screen :=
  if negb (isReady a) then LoaderScreen
  else match viewPeerId a with
       | Some p => if String.eqb p "" then CameraScreen else ViewerScreen p
       | None => CameraScreen
       end.

End Router.

(** ** Predicates on the states of the camera view *)

Module Invariants.

Import App.
Local Open Scope string_scope.

(** No comma occurs in a string. *)
Fixpoint comma_free (s : string) : bool :=
  match s with
  | EmptyString => true
  | String c s' => negb (Ascii.eqb c GeminiService.comma) && comma_free s'
  end.

(** The video element shows the stream the component holds; a held stream
    comes with the permission and with an empty queue of calls. *)
Definition camera_refs_ok (s : CameraView) : Prop :=
  videoSrcObject s = mediaStreamRef s /\
  (mediaStreamRef s <> None ->
   hasCameraPermission s = Some true /\ pendingCalls s = []).

(** A frame callback is scheduled exactly while monitoring with permission. *)
Definition loop_exact (s : CameraView) : Prop :=
  animationFrame s = if isMonitoring s && truthy (hasCameraPermission s)
                     then Some true else None.

(** Every suspended handler captured [isMonitoring = true]. *)
Definition closures_monitoring (s : CameraView) : Prop :=
  forall h : Suspended, h ∈ awaiting s -> closureMonitoring h = true.

(** An event that is no longer analyzing holds a non-empty analysis. *)
Definition analysis_present (e : DetectionEvent) : Prop :=
  isAnalyzing e = false ->
  exists a : string, analysis e = Some a /\ a <> "".

(** An analyzing event has a handler waiting for its analysis. *)
Definition analyzing_have_handlers (s : CameraView) : Prop :=
  forall e : DetectionEvent,
    e ∈ events s -> isAnalyzing e = true ->
    id e ∈ map newEventId (awaiting s).

(** The requests issued so far are those for the images of the events, in
    creation order. *)
Definition requests_match_events (s : CameraView) : Prop :=
  apiRequests s
  = map (fun e => GeminiService.analyzeImage_request (imageDataUrl e))
        (rev (events s)).


(** The streams [getUserMedia] has delivered, in order. *)
Fixpoint acquired (acts : list Action) : list MediaStream :=
  match acts with
  | [] => []
  | GetUserMediaResolved stream :: acts' => stream :: acquired acts'
  | _ :: acts' => acquired acts'
  end.

(** The stream the component holds, as a list. *)
Definition held (s : CameraView) : list MediaStream :=
  match mediaStreamRef s with
  | Some stream => [stream]
  | None => []
  end.

(** The gate remembers the capture time of the newest event, or nothing. *)
Definition gate_tracks_newest (s : CameraView) : Prop :=
  lastDetectionTime s = 0%Z \/
  exists (e : DetectionEvent) (older : list DetectionEvent),
    events s = e :: older /\ id e = pretty (lastDetectionTime s).

End Invariants.

(** ** Proof automation for the case analyses below *)

Ltac viewer_cases :=
  repeat split; intros;
  try discriminate; try congruence; try assumption;
  try (apply list_elem_of_In; cbn; tauto);
  repeat match goal with
         | H : _ ∈ _ ++ [_] |- _ =>
             apply elem_of_app in H as [H | H];
             [|apply list_elem_of_singleton in H]
         | H : _ ∈ [_] |- _ => apply list_elem_of_singleton in H
         | H : _ ∈ [] |- _ => inversion H
         end;
  try solve [ match goal with
              | H3 : forall c, c ∈ _ -> _ /\ _, H : _ ∈ _ |- _ =>
                  destruct (H3 _ H); congruence
              end ];
  try solve [intuition (try congruence; try discriminate; eauto)].

Ltac in_vocabulary :=
  first [ assumption
        | apply list_elem_of_In; cbn; tauto ].

Import Differencer GeminiService App.

Local Open Scope Z_scope.

(** * Properties *)

Ltac split_state_cases :=
  repeat match goal with
         | |- context [match ?x with _ => _ end] => destruct x eqn:?; cbn
         end.

(** Case analysis on every cell of the state that an effect inspects. *)
Ltac explode s :=
  destruct s as [mon ev st er perm last msr pc af old vso ans stopped reqs aw cr sup];
  destruct mon, perm as [[|]|], msr, af as [[|]|], sup.

(** ** Frame differencer *)

Section DifferencerFacts.

Lemma lookup_after_prefix (pre l : list Z) (k : nat) :
  (pre ++ l) !! (length pre + k)%nat = l !! k.
Proof. induction pre as [|x pre IH]; [reflexivity | exact IH]. Qed.

Lemma abs_diff_after_prefix (pre1 pre2 l1 l2 : list Z) (k : nat) :
  length pre1 = length pre2 ->
  abs_diff (pre1 ++ l1) (pre2 ++ l2) (length pre1 + k) = abs_diff l1 l2 k.
Proof.
  intros Hlen. unfold abs_diff.
  rewrite lookup_after_prefix, Hlen, lookup_after_prefix. reflexivity.
Qed.

Lemma pixel_term_after_prefix (pre1 pre2 l1 l2 : list Z) (k : nat) :
  length pre1 = length pre2 ->
  pixel_term (pre1 ++ l1) (pre2 ++ l2) (length pre1 + k) = pixel_term l1 l2 k.
Proof.
  intros Hlen. unfold pixel_term.
  rewrite <- !Nat.add_assoc, !abs_diff_after_prefix by assumption.
  reflexivity.
Qed.

Lemma pixel_term_buffer (pre1 pre2 r1 r2 : list Z) (p q : Pixel) :
  length pre1 = length pre2 ->
  pixel_term (pre1 ++ flatten p ++ r1) (pre2 ++ flatten q ++ r2) (length pre1)
  = Some (pixel_delta p q).
Proof.
  intros Hlen. rewrite <- (Nat.add_0_r (length pre1)).
  rewrite pixel_term_after_prefix by assumption. reflexivity.
Qed.

Lemma diff_loop_buffer (ps : list Pixel) :
  forall (qs : list Pixel) (pre1 pre2 : list Z) (fuel : nat) (acc : Z),
    length ps = length qs -> length pre1 = length pre2 ->
    (length ps <= fuel)%nat ->
    diff_loop fuel (pre1 ++ buffer ps) (pre2 ++ buffer qs) (length pre1) (Some acc)
    = Some (acc + delta_sum ps qs).
Proof.
  induction ps as [|p ps IH]; intros qs pre1 pre2 fuel acc Hps Hpre Hfuel.
  - destruct qs; [|discriminate]. cbn [buffer map concat delta_sum].
    rewrite app_nil_r. destruct fuel; cbn [diff_loop].
    + f_equal; lia.
    + rewrite (proj2 (Nat.ltb_ge _ _)) by lia. f_equal; lia.
  - destruct qs as [|q qs]; [discriminate|].
    destruct fuel as [|fuel]; [cbn in Hfuel; lia|].
    cbn [diff_loop]. cbn [buffer map concat]. fold (buffer ps) (buffer qs).
    rewrite (proj2 (Nat.ltb_lt _ _)).
    2:{ rewrite !length_app. cbn. lia. }
    rewrite pixel_term_buffer by assumption. cbn [js_add delta_sum].
    replace (length pre1 + 4)%nat with (length (pre1 ++ flatten p))
      by (rewrite length_app; reflexivity).
    rewrite !(app_assoc _ (flatten _)).
    rewrite IH.
    + f_equal; lia.
    + cbn in Hps; lia.
    + rewrite !length_app. cbn. lia.
    + cbn in Hfuel; lia.
Qed.

(** The loop leaves by its own test: fuel beyond what the remaining
    indices need changes nothing. *)
Lemma diff_loop_enough (currentData oldData : list Z) (fuel : nat) :
  forall (extra i : nat) (diff : option Z),
    (length currentData <= i + 4 * fuel)%nat ->
    diff_loop (fuel + extra) currentData oldData i diff
    = diff_loop fuel currentData oldData i diff.
Proof.
  induction fuel as [|fuel IH]; intros extra i diff Hlen.
  - destruct extra; cbn [Nat.add diff_loop]; [reflexivity|].
    rewrite (proj2 (Nat.ltb_ge _ _)) by lia. reflexivity.
  - cbn [Nat.add diff_loop].
    destruct (i <? length currentData)%nat; [|reflexivity].
    apply IH. lia.
Qed.

Lemma frame_diff_any_fuel (currentData oldData : list Z) (extra : nat) :
  diff_loop (length currentData + extra) currentData oldData 0 (Some 0)
  = frame_diff currentData oldData.
Proof. apply diff_loop_enough. lia. Qed.

Lemma length_buffer (ps : list Pixel) : length (buffer ps) = (4 * length ps)%nat.
Proof.
  induction ps as [|p ps IH]; [reflexivity|].
  cbn [buffer map concat]. fold (buffer ps).
  rewrite length_app, IH. cbn [flatten length]. lia.
Qed.

Lemma frame_diff_buffer (ps qs : list Pixel) :
  length ps = length qs ->
  frame_diff (buffer ps) (buffer qs) = Some (delta_sum ps qs).
Proof.
  intros Hlen. unfold frame_diff.
  rewrite (diff_loop_buffer ps qs [] [] _ 0 Hlen eq_refl).
  - reflexivity.
  - rewrite length_buffer. lia.
Qed.

Lemma score_buffer (ps qs : list Pixel) :
  length ps = length qs -> ps <> [] ->
  score (buffer ps) (buffer qs)
  = Some (inject_Z (delta_sum ps qs)
          / (inject_Z (Z.of_nat (4 * length ps)) / 4))%Q.
Proof.
  intros Hlen Hne. unfold score.
  rewrite frame_diff_buffer by assumption. rewrite length_buffer.
  destruct ps as [|p ps]; [congruence|]. reflexivity.
Qed.

Lemma pixel_count_quotient (n : nat) :
  (inject_Z (Z.of_nat (4 * n)) / 4 == inject_Z (Z.of_nat n))%Q.
Proof.
  rewrite Nat2Z.inj_mul, inject_Z_mult.
  change (inject_Z (Z.of_nat 4)) with 4%Q. field.
Qed.

Lemma inject_Z_nonzero (n : nat) : n <> 0%nat -> ~ (inject_Z (Z.of_nat n) == 0)%Q.
Proof.
  intros Hn Heq. unfold Qeq in Heq. cbn in Heq. lia.
Qed.

Lemma delta_sum_same (ps : list Pixel) : delta_sum ps ps = 0.
Proof.
  induction ps as [|p ps IH]; [reflexivity|].
  cbn [delta_sum]. unfold pixel_delta. rewrite IH, !Z.sub_diag. reflexivity.
Qed.

Lemma delta_sum_uniform (delta : Z) (ps qs : list Pixel) :
  Forall2 (differs_by delta) ps qs ->
  delta_sum ps qs = 3 * delta * Z.of_nat (length ps).
Proof.
  induction 1 as [|p q ps qs (Hr & Hg & Hb) _ IH]; [cbn; lia|].
  cbn [delta_sum length]. unfold pixel_delta.
  rewrite IH, Hr, Hg, Hb, Nat2Z.inj_succ. ring.
Qed.

Lemma delta_sum_same_rgb (ps ps' : list Pixel) :
  Forall2 same_rgb ps ps' ->
  forall qs qs', Forall2 same_rgb qs qs' -> delta_sum ps' qs' = delta_sum ps qs.
Proof.
  induction 1 as [|p p' ps ps' (Hr & Hg & Hb) _ IH]; intros qs qs' Hq;
    [destruct Hq; reflexivity|].
  destruct Hq as [|q q' qs qs' (Hr' & Hg' & Hb') Hq]; [reflexivity|].
  cbn [delta_sum]. unfold pixel_delta.
  rewrite (IH _ _ Hq), Hr, Hg, Hb, Hr', Hg', Hb'. reflexivity.
Qed.

End DifferencerFacts.

(** C2. For equally sized, non-empty RGBA rasters the motion score the loop
    computes is the sum over all pixels of |R1-R2| + |G1-G2| + |B1-B2|
    divided by the pixel count; the alpha channel does not enter it; it is 0
    for identical rasters and 3 * delta when every colour channel of every
    pixel differs by exactly delta. *)
Theorem frame_differencer_score (ps qs : list Pixel) :
  length ps = length qs -> ps <> [] ->
  exists q : Q,
    frame_diff (buffer ps) (buffer qs) = Some (delta_sum ps qs) /\
    score (buffer ps) (buffer qs) = Some q /\
    (q == spec_score ps qs)%Q /\
    (ps = qs -> (q == 0)%Q) /\
    (forall delta : Z,
        Forall2 (differs_by delta) ps qs -> (q == inject_Z (3 * delta))%Q) /\
    (forall ps' qs' : list Pixel,
        Forall2 same_rgb ps ps' -> Forall2 same_rgb qs qs' ->
        score (buffer ps') (buffer qs') = Some q).
Proof.
  intros Hlen Hne.
  assert (Hn : length ps <> 0%nat) by (destruct ps; [congruence | discriminate]).
  pose proof (inject_Z_nonzero _ Hn) as Hnz.
  eexists. split; [apply frame_diff_buffer; assumption|].
  split; [apply score_buffer; assumption|].
  assert (Hspec :
    (inject_Z (delta_sum ps qs) / (inject_Z (Z.of_nat (4 * length ps)) / 4)
     == spec_score ps qs)%Q).
  { unfold spec_score. rewrite pixel_count_quotient. reflexivity. }
  split; [exact Hspec|]. split; [|split].
  - intros <-. rewrite Hspec. unfold spec_score. rewrite delta_sum_same.
    change (inject_Z 0) with 0%Q. field. exact Hnz.
  - intros delta Hd. rewrite Hspec. unfold spec_score.
    rewrite (delta_sum_uniform delta ps qs Hd), inject_Z_mult.
    apply Qdiv_mult_l. exact Hnz.
  - intros ps' qs' Hp Hq.
    assert (Hlp : length ps' = length ps)
      by (symmetry; eapply Forall2_length; eassumption).
    assert (Hlq : length qs' = length qs)
      by (symmetry; eapply Forall2_length; eassumption).
    rewrite score_buffer.
    + rewrite (delta_sum_same_rgb ps ps' Hp qs qs' Hq), Hlp. reflexivity.
    + congruence.
    + intros ->. cbn in Hlp. congruence.
Qed.

Lemma frame_differencer_score_witness :
  exists q : Q,
    score [10; 20; 30; 255; 0; 0; 0; 255] [13; 17; 33; 0; 3; 3; 3; 7] = Some q /\
    (q == 9)%Q.
Proof.
  pose (ps := [ {| red := 10; green := 20; blue := 30; alpha := 255 |};
                {| red := 0; green := 0; blue := 0; alpha := 255 |} ]).
  pose (qs := [ {| red := 13; green := 17; blue := 33; alpha := 0 |};
                {| red := 3; green := 3; blue := 3; alpha := 7 |} ]).
  destruct (frame_differencer_score ps qs eq_refl ltac:(discriminate))
    as (q & _ & Hscore & _ & _ & Huniform & _).
  exists q. split; [exact Hscore|].
  apply (Huniform 3). repeat constructor.
Defined.

(** ** Effects and camera handling leave the pipeline and the queue alone *)

Section Frames.

Lemma cleanupCamera_frame (s : CameraView) :
  let s' := cleanupCamera s in
  isMonitoring s' = isMonitoring s /\ events s' = events s /\
  status s' = status s /\ error s' = error s /\
  hasCameraPermission s' = hasCameraPermission s /\
  lastDetectionTime s' = lastDetectionTime s /\
  pendingCalls s' = pendingCalls s /\ animationFrame s' = animationFrame s /\
  oldCanvasData s' = oldCanvasData s /\ answered s' = answered s /\
  apiRequests s' = apiRequests s /\ awaiting s' = awaiting s /\
  cameraRequests s' = cameraRequests s /\
  mediaStreamRef s' = None /\ videoSrcObject s' = None.
Proof. cbv zeta. unfold cleanupCamera. destruct (mediaStreamRef s); repeat split. Qed.

Lemma commit_frame (prevMon : bool) (prevPerm : option bool) (s : CameraView) :
  let s' := commit prevMon prevPerm s in
  isMonitoring s' = isMonitoring s /\ events s' = events s /\
  pendingCalls s' = pendingCalls s /\ answered s' = answered s /\
  oldCanvasData s' = oldCanvasData s /\
  apiRequests s' = apiRequests s /\ awaiting s' = awaiting s /\
  mediaDevicesSupported s' = mediaDevicesSupported s.
Proof.
  cbv zeta. explode s; destruct prevMon, prevPerm as [[|]|]; 
  repeat split; reflexivity.
Qed.

Lemma commit_events (prevMon : bool) (prevPerm : option bool) (s : CameraView) :
  events (commit prevMon prevPerm s) = events s.
Proof. apply commit_frame. Qed.

Lemma setupCamera_catch_frame (err : Thrown) (s : CameraView) :
  let s' := setupCamera_catch err s in
  isMonitoring s' = isMonitoring s /\ events s' = events s /\
  status s' = status s /\ pendingCalls s' = pendingCalls s /\
  answered s' = answered s /\ animationFrame s' = animationFrame s /\
  error s' = Some (camera_error_message err) /\
  hasCameraPermission s' = Some false /\
  mediaStreamRef s' = None /\ videoSrcObject s' = None.
Proof.
  cbv zeta. unfold setupCamera_catch, cleanupCamera. cbn.
  destruct (mediaStreamRef s); repeat split.
Qed.

End Frames.

(** ** Cooldown gate *)

Lemma cons_neq_self {A : Type} (x : A) (l : list A) : l <> x :: l.
Proof.
  intros Heq. apply (f_equal length) in Heq. cbn in Heq. lia.
Qed.

Lemma handleMotionDetected_denied (m : bool) (img : string) (now date : Z)
    (s : CameraView) :
  now - lastDetectionTime s < COOLDOWN_SECONDS * 1000 ->
  handleMotionDetected m img now date s = s.
Proof.
  intros Hlt. unfold handleMotionDetected.
  destruct (Z.ltb_spec (now - lastDetectionTime s) (COOLDOWN_SECONDS * 1000));
    [reflexivity | lia].
Qed.

Lemma handleMotionDetected_permitted (m : bool) (img : string) (now date : Z)
    (s : CameraView) :
  COOLDOWN_SECONDS * 1000 <= now - lastDetectionTime s ->
  handleMotionDetected m img now date s
  = submit m img now date (set_lastDetectionTime now s).
Proof.
  intros Hle. unfold handleMotionDetected.
  destruct (Z.ltb_spec (now - lastDetectionTime s) (COOLDOWN_SECONDS * 1000));
    [lia | reflexivity].
Qed.

(** C1. [handleMotionDetected] permits, prepending a new event and setting
    [lastDetectionTime] to [now], exactly when
    [now - lastDetectionTime >= 10 s]; it leaves the whole state unchanged,
    creating no event, exactly when [now - lastDetectionTime < 10 s]; at the
    boundary of exactly 10 s it permits. *)
Theorem cooldown_gate (m : bool) (img : string) (now date : Z) (s : CameraView) :
  let s' := handleMotionDetected m img now date s in
  COOLDOWN_SECONDS * 1000 = 10000 /\
  (10000 <= now - lastDetectionTime s <->
   lastDetectionTime s' = now /\ events s' = newEvent img now date :: events s) /\
  (now - lastDetectionTime s < 10000 <-> s' = s) /\
  (now - lastDetectionTime s = 10000 ->
   lastDetectionTime s' = now /\ events s' = newEvent img now date :: events s).
Proof.
  cbv zeta.
  assert (Hpermit : 10000 <= now - lastDetectionTime s ->
    lastDetectionTime (handleMotionDetected m img now date s) = now /\
    events (handleMotionDetected m img now date s)
    = newEvent img now date :: events s).
  { intros Hle. rewrite handleMotionDetected_permitted by exact Hle.
    split; reflexivity. }
  split; [reflexivity|]. split; [|split].
  - split; [exact Hpermit|]. intros [_ Hev].
    destruct (Z.lt_ge_cases (now - lastDetectionTime s) 10000) as [Hlt|Hge];
      [|exact Hge].
    rewrite handleMotionDetected_denied in Hev by exact Hlt.
    destruct (cons_neq_self _ _ Hev).
  - split; [apply handleMotionDetected_denied|]. intros Hsame.
    destruct (Z.lt_ge_cases (now - lastDetectionTime s) 10000) as [Hlt|Hge];
      [exact Hlt|].
    destruct (Hpermit Hge) as [_ Hev]. rewrite Hsame in Hev.
    destruct (cons_neq_self _ _ Hev).
  - intros Heq. apply Hpermit. lia.
Qed.

(** ** The analysis service never rejects *)

Lemma analyzeImage_returns (imageDataUrl : string) (outcome : ApiOutcome) :
  exists description : string,
    analyzeImage imageDataUrl outcome = Returns description /\
    (failed outcome = true -> String.prefix "Erro" description = true).
Proof.
  unfold analyzeImage, failed.
  destruct (analyzeImage_try outcome) as [t | [name message | ]].
  - exists t. split; [reflexivity | discriminate].
  - eexists. split; [reflexivity|]. intros _. reflexivity.
  - eexists. split; [reflexivity|]. intros _. reflexivity.
Qed.


Lemma analysisSettled_events (k : nat) (outcome : ApiOutcome) (s : CameraView)
    (h : Suspended) (description : string) :
  awaiting s !! k = Some h ->
  analyzeImage (image h) outcome = Returns description ->
  events (analysisSettled k outcome s)
  = write_analysis (newEventId h) description (events s).
Proof.
  intros Hk Hr. unfold analysisSettled, handleMotionDetected_resume.
  rewrite Hk, Hr. destruct (closureMonitoring h); reflexivity.
Qed.


(** ** Which events a transition touches *)

Lemma write_analysis_same_capture (d description : string)
    (p : list DetectionEvent) :
  Forall2 same_capture p (write_analysis d description p).
Proof.
  induction p as [|e p IH]; [constructor|].
  cbn [write_analysis map]. constructor; [|exact IH].
  destruct (String.eqb (id e) d); repeat split.
Qed.

Lemma same_capture_refl (p : list DetectionEvent) : Forall2 same_capture p p.
Proof. induction p; constructor; [repeat split | assumption]. Qed.

Lemma same_capture_trans (e1 e2 e3 : DetectionEvent) :
  same_capture e1 e2 -> same_capture e2 e3 -> same_capture e1 e3.
Proof. intros (? & ? & ?) (? & ? & ?). repeat split; congruence. Qed.

Lemma onAnimationFrame_events (t : Tick) (s : CameraView) :
  events (onAnimationFrame t s) = events s \/
  events (onAnimationFrame t s)
  = newEvent (dataUrl t) (now t) (date t) :: events s.
Proof.
  unfold onAnimationFrame, detectionLoop, drawAndCompare, handleMotionDetected,
    submit.
  cbn. split_state_cases; auto.
Qed.

Lemma analysisSettled_events_cases (k : nat) (outcome : ApiOutcome)
    (s : CameraView) :
  events (analysisSettled k outcome s) = events s \/
  exists (h : Suspended) (description : string),
    awaiting s !! k = Some h /\
    events (analysisSettled k outcome s)
    = write_analysis (newEventId h) description (events s).
Proof.
  destruct (awaiting s !! k) as [h|] eqn:Hk.
  - right. destruct (analyzeImage_returns (image h) outcome) as (d & Hd & _).
    exists h, d. split; [reflexivity|].
    apply analysisSettled_events; assumption.
  - left. unfold analysisSettled. rewrite Hk. reflexivity.
Qed.

Lemma lifecycle_step_events (a : Action) (s : CameraView) :
  lifecycle a -> events (step a s) = events s.
Proof.
  destruct a; cbn [lifecycle step]; intros Hl; try contradiction.
  - rewrite commit_events. reflexivity.
  - destruct (cameraRequests s); [reflexivity|].
    rewrite commit_events. reflexivity.
  - destruct (cameraRequests s); [reflexivity|].
    rewrite commit_events.
    destruct (setupCamera_catch_frame err (set_cameraRequests n s))
      as (_ & -> & _).
    reflexivity.
  - unfold onCall. destruct (mediaStreamRef s); reflexivity.
Qed.

Lemma step_retains (a : Action) (s : CameraView) :
  exists newer older : list DetectionEvent,
    events (step a s) = newer ++ older /\
    Forall2 same_capture (events s) older.
Proof.
  destruct a as [ | stream | err | t | call | k outcome].
  1-3, 5: exists [], (events s); split;
    [apply lifecycle_step_events; exact I | apply same_capture_refl].
  - cbn [step]. destruct (onAnimationFrame_events t s) as [-> | ->].
    + exists [], (events s). split; [reflexivity | apply same_capture_refl].
    + eexists [_], (events s). split; [reflexivity | apply same_capture_refl].
  - cbn [step].
    destruct (analysisSettled_events_cases k outcome s)
      as [-> | (h & d & _ & ->)].
    + exists [], (events s). split; [reflexivity | apply same_capture_refl].
    + eexists [], _. split; [reflexivity | apply write_analysis_same_capture].
Qed.

Lemma run_retains (acts : list Action) :
  forall s : CameraView,
  exists newer older : list DetectionEvent,
    events (run acts s) = newer ++ older /\
    Forall2 same_capture (events s) older.
Proof.
  induction acts as [|a acts IH]; intros s.
  - exists [], (events s). split; [reflexivity | apply same_capture_refl].
  - cbn [run]. destruct (IH (step a s)) as (newer' & older' & Hev' & Hsame').
    destruct (step_retains a s) as (newer & older & Hev & Hsame).
    rewrite Hev in Hsame'.
    apply Forall2_app_inv_l in Hsame' as (n1 & o1 & _ & Ho1 & ->).
    exists (newer' ++ n1), o1. split.
    + rewrite Hev'. apply app_assoc.
    + eapply Forall2_trans; [|exact Hsame|exact Ho1].
      apply same_capture_trans.
Qed.

Lemma lifecycle_run_events (acts : list Action) :
  forall s : CameraView, Forall lifecycle acts -> events (run acts s) = events s.
Proof.
  induction acts as [|a acts IH]; intros s Hall; [reflexivity|].
  inversion Hall; subst. cbn [run].
  rewrite IH by assumption. apply lifecycle_step_events. assumption.
Qed.

Lemma stop_releases_camera (s : CameraView) :
  isMonitoring s = true ->
  let s' := step ToggleMonitoring s in
  isMonitoring s' = false /\ mediaStreamRef s' = None /\
  videoSrcObject s' = None /\ animationFrame s' = None /\
  (forall stream : MediaStream,
      mediaStreamRef s = Some stream -> stream ∈ stoppedStreams s').
Proof.
  intros Hmon. cbv zeta.
  explode s; cbn in Hmon; try discriminate; repeat split; try reflexivity;
    cbn; intros stream Hs; try discriminate Hs;
    injection Hs as ->; apply elem_of_app; right; left.
Qed.

(** C10. Stopping or restarting monitoring leaves the list of detection
    events exactly as it was: the stop transition clears the stream
    reference and the video source, stops the stream and cancels the
    scheduled tick, but the toggle, the release of the camera, and any
    sequence of toggles, camera outcomes and inbound calls neither remove,
    reorder nor modify events.  Across any history at all, the events that
    existed are still present, in the same order, below the newer ones, each
    with its id, timestamp and image. *)
Theorem stop_keeps_events (s : CameraView) (acts : list Action) :
  events (step ToggleMonitoring s) = events s /\
  events (step ToggleMonitoring (step ToggleMonitoring s)) = events s /\
  events (cleanupCamera s) = events s /\
  (isMonitoring s = true ->
   mediaStreamRef (step ToggleMonitoring s) = None /\
   animationFrame (step ToggleMonitoring s) = None) /\
  (Forall lifecycle acts -> events (run acts s) = events s) /\
  (exists newer older : list DetectionEvent,
      events (run acts s) = newer ++ older /\
      Forall2 same_capture (events s) older).
Proof.
  assert (Htoggle : forall s0, events (step ToggleMonitoring s0) = events s0)
    by (intros s0; apply lifecycle_step_events; exact I).
  split; [apply Htoggle|]. split; [rewrite !Htoggle; reflexivity|].
  split; [apply cleanupCamera_frame|].
  split.
  { intros Hmon. destruct (stop_releases_camera s Hmon) as (_ & Hs & _ & Ha & _).
    split; assumption. }
  split; [apply lifecycle_run_events | apply run_retains].
Qed.

(** ** Stream session manager *)

Lemma answered_with_stream (stream : MediaStream) (calls : list MediaConnection) :
  map fst (map (fun call => (call, stream)) calls) = calls.
Proof. induction calls as [|c calls IH]; [reflexivity|]. cbn. f_equal. exact IH. Qed.

Lemma step_calls_other (a : Action) (s : CameraView) :
  match a with
  | InboundCall _ | GetUserMediaResolved _ => True
  | _ => answered (step a s) = answered s /\ pendingCalls (step a s) = pendingCalls s
  end.
Proof.
  destruct a as [ | stream | err | t | call | k outcome]; try exact I; cbn [step].
  - destruct (commit_frame (isMonitoring s) (hasCameraPermission s)
                (set_isMonitoring (negb (isMonitoring s)) s))
      as (_ & _ & -> & -> & _).
    split; reflexivity.
  - destruct (cameraRequests s); [split; reflexivity|].
    destruct (commit_frame (isMonitoring s) (hasCameraPermission s)
                (setupCamera_catch err (set_cameraRequests n s)))
      as (_ & _ & -> & -> & _).
    destruct (setupCamera_catch_frame err (set_cameraRequests n s))
      as (_ & _ & _ & -> & -> & _).
    split; reflexivity.
  - unfold onAnimationFrame, detectionLoop, drawAndCompare,
      handleMotionDetected, submit.
    cbn. split_state_cases; split; reflexivity.
  - unfold analysisSettled, handleMotionDetected_resume.
    cbn. split_state_cases; split; reflexivity.
Qed.

Lemma step_resolved_calls (stream : MediaStream) (s : CameraView) :
  cameraRequests s <> 0%nat ->
  answered (step (GetUserMediaResolved stream) s)
  = answered s ++ map (fun call => (call, stream)) (pendingCalls s) /\
  pendingCalls (step (GetUserMediaResolved stream) s) = [] /\
  mediaStreamRef (step (GetUserMediaResolved stream) s) = Some stream.
Proof.
  intros Hreq. explode s; cbn in Hreq; (destruct cr as [|n]; [congruence|]);
    repeat split; reflexivity.
Qed.

Lemma step_ledger (a : Action) (s : CameraView) :
  Permutation (call_ledger (step a s)) (call_ledger s ++ arrivals [a]).
Proof.
  unfold call_ledger. pose proof (step_calls_other a s) as Hother.
  destruct a as [ | stream | err | t | call | k outcome];
    cbn [arrivals]; rewrite ?app_nil_r.
  1, 3, 4, 6: destruct Hother as [-> ->]; reflexivity.
  - destruct (Nat.eq_dec (cameraRequests s) 0%nat) as [Hz|Hnz].
    + unfold step. rewrite Hz. reflexivity.
    + destruct (step_resolved_calls stream s Hnz) as (-> & -> & _).
      rewrite map_app, answered_with_stream, app_nil_r. reflexivity.
  - cbn [step]. unfold onCall.
    destruct (mediaStreamRef s) as [m|]; cbn.
    + rewrite map_app. cbn. rewrite <- !app_assoc.
      apply Permutation_app_head. apply Permutation_app_comm.
    + rewrite app_assoc. reflexivity.
Qed.

Lemma arrivals_cons (a : Action) (acts : list Action) :
  arrivals (a :: acts) = arrivals [a] ++ arrivals acts.
Proof. destruct a; reflexivity. Qed.

Lemma run_ledger (acts : list Action) :
  forall s : CameraView,
    Permutation (call_ledger (run acts s)) (call_ledger s ++ arrivals acts).
Proof.
  induction acts as [|a acts IH]; intros s.
  - cbn. rewrite app_nil_r. reflexivity.
  - cbn [run]. rewrite IH, step_ledger, (arrivals_cons a acts), app_assoc. reflexivity.
Qed.

(** C4. An inbound call that arrives while there is no media stream is
    appended to the queue and not answered; no transition other than the
    arrival of the stream answers or drops a queued call; when
    [getUserMedia] resolves, every queued call is answered with the stream,
    in order, and the queue is emptied; a call that arrives while the stream
    is there is answered at once with it.  Along any history every call
    that arrived is either still queued or was answered exactly once. *)
Theorem inbound_calls (s : CameraView) (call : MediaConnection)
    (stream : MediaStream) (acts : list Action) :
  (mediaStreamRef s = None ->
   pendingCalls (step (InboundCall call) s) = pendingCalls s ++ [call] /\
   answered (step (InboundCall call) s) = answered s) /\
  (mediaStreamRef s = Some stream ->
   answered (step (InboundCall call) s) = answered s ++ [(call, stream)] /\
   pendingCalls (step (InboundCall call) s) = pendingCalls s) /\
  (cameraRequests s <> 0%nat ->
   answered (step (GetUserMediaResolved stream) s)
   = answered s ++ map (fun c => (c, stream)) (pendingCalls s) /\
   pendingCalls (step (GetUserMediaResolved stream) s) = [] /\
   mediaStreamRef (step (GetUserMediaResolved stream) s) = Some stream) /\
  (forall a : Action,
      (forall c, a <> InboundCall c) ->
      (forall m, a <> GetUserMediaResolved m) ->
      answered (step a s) = answered s /\
      pendingCalls (step a s) = pendingCalls s) /\
  Permutation (map fst (answered (run acts s)) ++ pendingCalls (run acts s))
    ((map fst (answered s) ++ pendingCalls s) ++ arrivals acts).
Proof.
  split; [|split; [|split; [|split]]].
  - intros Hnone. cbn [step]. unfold onCall. rewrite Hnone. split; reflexivity.
  - intros Hsome. cbn [step]. unfold onCall. rewrite Hsome. split; reflexivity.
  - apply step_resolved_calls.
  - intros a Hcall Hres. pose proof (step_calls_other a s) as H.
    destruct a; try exact H; [destruct (Hres _ eq_refl) | destruct (Hcall _ eq_refl)].
  - apply run_ledger.
Qed.

(** ** The motion test on rasters *)

Lemma score_le_threshold (d c : Z) (n : nat) :
  n <> 0%nat ->
  Qle_bool (inject_Z d / (inject_Z (Z.of_nat (4 * n)) / 4)) (inject_Z c)
  = (d <=? c * Z.of_nat n).
Proof.
  intros Hn. apply eq_true_iff_eq.
  rewrite Qle_bool_iff, Z.leb_le, pixel_count_quotient.
  pose proof (inject_Z_nonzero n Hn) as Hnz.
  assert (Hpos : (0 < inject_Z (Z.of_nat n))%Q).
  { change 0%Q with (inject_Z 0). rewrite <- Zlt_Qlt. lia. }
  rewrite <- (Qmult_le_r _ _ _ Hpos).
  setoid_replace (inject_Z d / inject_Z (Z.of_nat n) * inject_Z (Z.of_nat n))%Q
    with (inject_Z d) using relation Qeq by (field; exact Hnz).
  rewrite <- inject_Z_mult, <- Zle_Qle. reflexivity.
Qed.

Lemma exceeds_buffer (ps qs : list Pixel) :
  length ps = length qs -> ps <> [] ->
  exceeds (buffer ps) (buffer qs)
  = (MOTION_SENSITIVITY * Z.of_nat (length ps) <? delta_sum ps qs).
Proof.
  intros Hlen Hne. unfold exceeds. rewrite score_buffer by assumption.
  rewrite score_le_threshold by (destruct ps; [congruence | discriminate]).
  rewrite Z.ltb_antisym. reflexivity.
Qed.

(** ** One tick of the detection loop *)

Lemma tick_motion (t : Tick) (s : CameraView) (v : MediaStream)
    (currentData : list Z) :
  animationFrame s = Some true -> videoSrcObject s = Some v ->
  frame t = Some currentData ->
  exceeds currentData (oldCanvasData s) = true ->
  COOLDOWN_SECONDS * 1000 <= now t - lastDetectionTime s ->
  events (step (AnimationFrame t) s)
  = newEvent (dataUrl t) (now t) (date t) :: events s /\
  lastDetectionTime (step (AnimationFrame t) s) = now t.
Proof.
  intros Haf Hv Hf Hex Hgate. cbn [step].
  unfold onAnimationFrame, detectionLoop, drawAndCompare.
  rewrite Haf. cbn. rewrite Hv, Hf, Hex.
  rewrite handleMotionDetected_permitted by exact Hgate.
  split; reflexivity.
Qed.

Lemma tick_still (t : Tick) (s : CameraView) (currentData : list Z) :
  frame t = Some currentData ->
  exceeds currentData (oldCanvasData s) = false ->
  events (step (AnimationFrame t) s) = events s /\
  lastDetectionTime (step (AnimationFrame t) s) = lastDetectionTime s.
Proof.
  intros Hf Hex. cbn [step].
  unfold onAnimationFrame, detectionLoop, drawAndCompare.
  destruct (animationFrame s) as [[|]|]; cbn; try (split; reflexivity).
  destruct (videoSrcObject s); cbn; [|split; reflexivity].
  rewrite Hf, Hex. split; reflexivity.
Qed.

Lemma tick_cases (t : Tick) (s : CameraView) :
  (events (step (AnimationFrame t) s) = events s /\
   lastDetectionTime (step (AnimationFrame t) s) = lastDetectionTime s) \/
  (events (step (AnimationFrame t) s)
   = newEvent (dataUrl t) (now t) (date t) :: events s /\
   lastDetectionTime (step (AnimationFrame t) s) = now t).
Proof.
  cbn [step].
  unfold onAnimationFrame, detectionLoop, drawAndCompare, handleMotionDetected,
    submit.
  cbn. split_state_cases; auto.
Qed.




(** ** Scheduling of the loop *)

Lemma analysisSettled_frame (k : nat) (outcome : ApiOutcome) (s : CameraView) :
  let s' := analysisSettled k outcome s in
  isMonitoring s' = isMonitoring s /\
  hasCameraPermission s' = hasCameraPermission s /\
  lastDetectionTime s' = lastDetectionTime s /\
  animationFrame s' = animationFrame s /\
  oldCanvasData s' = oldCanvasData s /\
  mediaStreamRef s' = mediaStreamRef s /\
  videoSrcObject s' = videoSrcObject s /\
  apiRequests s' = apiRequests s /\
  cameraRequests s' = cameraRequests s.
Proof.
  cbv zeta. unfold analysisSettled, handleMotionDetected_resume.
  destruct (awaiting s !! k) as [h|]; [|repeat split].
  destruct (analyzeImage (image h) outcome), (closureMonitoring h); repeat split.
Qed.

Lemma onAnimationFrame_frame (t : Tick) (s : CameraView) :
  let s' := onAnimationFrame t s in
  isMonitoring s' = isMonitoring s /\
  hasCameraPermission s' = hasCameraPermission s /\
  animationFrame s'
  = match animationFrame s with
    | Some false => None
    | scheduled => scheduled
    end.
Proof.
  cbv zeta.
  unfold onAnimationFrame, detectionLoop, drawAndCompare, handleMotionDetected,
    submit.
  destruct (animationFrame s) as [[|]|] eqn:Haf; cbn;
    try (repeat split; congruence).
  split_state_cases; repeat split; congruence.
Qed.

Lemma step_loop_scheduled_ok (a : Action) (s : CameraView) :
  loop_scheduled_ok s -> loop_scheduled_ok (step a s).
Proof.
  unfold loop_scheduled_ok.
  destruct a as [ | stream | err | t | call | k outcome]; cbn [step]; intros H.
  - explode s; cbn in H |- *; intuition congruence.
  - explode s; destruct cr; cbn in H |- *; intuition congruence.
  - explode s; destruct cr; cbn in H |- *; intuition congruence.
  - destruct (onAnimationFrame_frame t s) as (-> & -> & ->).
    destruct (animationFrame s) as [[|]|]; intuition congruence.
  - unfold onCall. destruct (mediaStreamRef s); exact H.
  - destruct (analysisSettled_frame k outcome s) as (-> & -> & _ & -> & _).
    exact H.
Qed.

Lemma run_loop_scheduled_ok (acts : list Action) :
  forall s : CameraView, loop_scheduled_ok s -> loop_scheduled_ok (run acts s).
Proof.
  induction acts as [|a acts IH]; intros s H; [exact H|].
  cbn [run]. apply IH, step_loop_scheduled_ok, H.
Qed.

Lemma mounted_loop_scheduled_ok (supported : bool) :
  loop_scheduled_ok (mounted supported).
Proof. left. reflexivity. Qed.

Lemma no_frame_no_tick (t : Tick) (s : CameraView) :
  animationFrame s = None -> step (AnimationFrame t) s = s.
Proof. intros H. cbn [step]. unfold onAnimationFrame. rewrite H. reflexivity. Qed.

Lemma rejected_state (err : Thrown) (s : CameraView) :
  loop_scheduled_ok s -> cameraRequests s <> 0%nat ->
  let s' := step (GetUserMediaRejected err) s in
  isMonitoring s' = isMonitoring s /\
  error s' = Some (camera_error_message err) /\
  hasCameraPermission s' = Some false /\
  mediaStreamRef s' = None /\ videoSrcObject s' = None /\
  animationFrame s' = None /\
  (isMonitoring s = true -> status s' = status s) /\
  events s' = events s.
Proof.
  unfold loop_scheduled_ok. intros Hok Hreq. cbv zeta.
  explode s; cbn in Hreq; (destruct cr; [congruence|]); cbn in Hok |- *;
    repeat split; try reflexivity; intuition congruence.
Qed.

(** The other way the acquisition fails: the browser has no
    [getUserMedia], and [setupCamera] reaches its [catch] block within the
    start request itself. *)
Lemma unsupported_api_state (s : CameraView) :
  isMonitoring s = false -> mediaDevicesSupported s = false ->
  let s' := step ToggleMonitoring s in
  isMonitoring s' = true /\
  error s'
  = Some "Erro ao acessar câmera: A API da câmera não é suportada neste navegador."%string /\
  hasCameraPermission s' = Some false /\
  mediaStreamRef s' = None /\ animationFrame s' = None /\
  events s' = events s.
Proof.
  intros Hmon Hsup. cbv zeta.
  explode s; cbn in Hmon, Hsup; try discriminate; repeat split; reflexivity.
Qed.




(** ** Reset of the gate when the loop starts *)




(** ** The first tick of a session *)

Lemma delta_sum_blank_white (n : nat) :
  delta_sum (repeat white_pixel n) (repeat blank_pixel n) = 765 * Z.of_nat n.
Proof.
  induction n as [|n IH]; [reflexivity|].
  cbn [repeat delta_sum]. rewrite IH, Nat2Z.inj_succ.
  unfold pixel_delta. cbn. lia.
Qed.

Lemma started_session (stream : MediaStream) :
  let s := run [ToggleMonitoring; GetUserMediaResolved stream] (mounted true) in
  animationFrame s = Some true /\ videoSrcObject s = Some stream /\
  oldCanvasData s = blank_canvas /\ lastDetectionTime s = 0 /\ events s = [].
Proof. cbv zeta. repeat split; reflexivity. Qed.

Lemma tick_against_blank (s : CameraView) (v : MediaStream) (t : Tick)
    (ps : list Pixel) :
  animationFrame s = Some true -> videoSrcObject s = Some v ->
  oldCanvasData s = blank_canvas -> lastDetectionTime s = 0 ->
  frame t = Some (buffer ps) ->
  length ps = (CANVAS_WIDTH * CANVAS_HEIGHT)%nat ->
  COOLDOWN_SECONDS * 1000 <= now t ->
  (MOTION_SENSITIVITY * Z.of_nat (length ps)
   < delta_sum ps (repeat blank_pixel (length ps)) ->
   events (step (AnimationFrame t) s)
   = newEvent (dataUrl t) (now t) (date t) :: events s) /\
  (delta_sum ps (repeat blank_pixel (length ps))
   <= MOTION_SENSITIVITY * Z.of_nat (length ps) ->
   events (step (AnimationFrame t) s) = events s).
Proof.
  intros Haf Hv Hold Hlast Hf Hlen Hnow.
  assert (Hex : exceeds (buffer ps) (oldCanvasData s)
                = (MOTION_SENSITIVITY * Z.of_nat (length ps)
                   <? delta_sum ps (repeat blank_pixel (length ps)))).
  { rewrite Hold. unfold blank_canvas. rewrite <- Hlen.
    apply exceeds_buffer.
    - rewrite repeat_length. reflexivity.
    - intros ->. discriminate Hlen. }
  split; intros Hcmp.
  - apply (tick_motion t s v (buffer ps)); try assumption.
    + rewrite Hex. apply Z.ltb_lt. exact Hcmp.
    + rewrite Hlast. lia.
  - apply (tick_still t s (buffer ps)); [assumption|].
    rewrite Hex. apply Z.ltb_ge. exact Hcmp.
Qed.

(** C6 (as the code has it).  On the first tick of the first session the
    previous-frame buffer is the blank canvas, every byte 0, and the first
    frame is compared with it like any other: the tick triggers and creates
    an event exactly when the mean of R + G + B over the first frame exceeds
    [MOTION_SENSITIVITY]; a first frame at or below that mean creates
    none. *)
Theorem first_tick_against_blank_canvas (stream : MediaStream) (t : Tick)
    (ps : list Pixel) :
  let s := run [ToggleMonitoring; GetUserMediaResolved stream] (mounted true) in
  frame t = Some (buffer ps) ->
  length ps = (CANVAS_WIDTH * CANVAS_HEIGHT)%nat ->
  COOLDOWN_SECONDS * 1000 <= now t ->
  oldCanvasData s = blank_canvas /\
  (MOTION_SENSITIVITY * Z.of_nat (length ps)
   < delta_sum ps (repeat blank_pixel (length ps)) ->
   events (step (AnimationFrame t) s) = [newEvent (dataUrl t) (now t) (date t)]) /\
  (delta_sum ps (repeat blank_pixel (length ps))
   <= MOTION_SENSITIVITY * Z.of_nat (length ps) ->
   events (step (AnimationFrame t) s) = []).
Proof.
  cbv zeta. intros Hf Hlen Hnow.
  destruct (started_session stream) as (Haf & Hv & Hold & Hlast & Hev).
  destruct (tick_against_blank _ stream t ps Haf Hv Hold Hlast Hf Hlen Hnow)
    as [Htrig Hquiet].
  rewrite Hev in Htrig, Hquiet.
  split; [exact Hold|]. split; assumption.
Qed.

Lemma white_frame_is_bright :
  MOTION_SENSITIVITY * Z.of_nat (length (repeat white_pixel (CANVAS_WIDTH * CANVAS_HEIGHT)))
  < delta_sum (repeat white_pixel (CANVAS_WIDTH * CANVAS_HEIGHT))
      (repeat blank_pixel (length (repeat white_pixel (CANVAS_WIDTH * CANVAS_HEIGHT)))).
Proof.
  rewrite repeat_length, delta_sum_blank_white.
  assert (0 < Z.of_nat (CANVAS_WIDTH * CANVAS_HEIGHT)) by (vm_compute; reflexivity).
  unfold MOTION_SENSITIVITY. lia.
Qed.

Lemma first_tick_against_blank_canvas_witness :
  let s := run [ToggleMonitoring; GetUserMediaResolved 0%nat] (mounted true) in
  frame white_tick = Some (buffer (repeat white_pixel (CANVAS_WIDTH * CANVAS_HEIGHT))) /\
  COOLDOWN_SECONDS * 1000 <= now white_tick /\
  oldCanvasData s = blank_canvas /\
  events (step (AnimationFrame white_tick) s)
  = [newEvent (dataUrl white_tick) (now white_tick) (date white_tick)].
Proof.
  cbv zeta.
  assert (Hnow : COOLDOWN_SECONDS * 1000 <= now white_tick)
    by (vm_compute; discriminate).
  destruct (first_tick_against_blank_canvas 0%nat white_tick
              (repeat white_pixel (CANVAS_WIDTH * CANVAS_HEIGHT))
              eq_refl (repeat_length _ _) Hnow) as (Hold & Htrig & _).
  split; [reflexivity|]. split; [exact Hnow|]. split; [exact Hold|].
  apply Htrig. exact white_frame_is_bright.
Defined.

(** C6 (as stated) fails: monitoring starts, the camera delivers a white
    first frame while the previous-frame buffer is still the blank canvas,
    and the first tick creates a detection event. *)
Lemma first_tick_false_trigger :
  let s := run [ToggleMonitoring; GetUserMediaResolved 0%nat] (mounted true) in
  oldCanvasData s = blank_canvas /\ events s = [] /\
  events (step (AnimationFrame white_tick) s)
  = [newEvent (dataUrl white_tick) (now white_tick) (date white_tick)] /\
  events (step (AnimationFrame white_tick) s) <> events s.
Proof.
  cbv zeta.
  destruct (started_session 0%nat) as (Haf & Hv & Hold & Hlast & Hev).
  assert (Hnow : COOLDOWN_SECONDS * 1000 <= now white_tick)
    by (vm_compute; discriminate).
  destruct (tick_against_blank _ 0%nat white_tick
              (repeat white_pixel (CANVAS_WIDTH * CANVAS_HEIGHT))
              Haf Hv Hold Hlast eq_refl (repeat_length _ _) Hnow)
    as [Htrig _].
  specialize (Htrig white_frame_is_bright). rewrite Hev in Htrig.
  split; [exact Hold|]. split; [exact Hev|]. split; [exact Htrig|].
  rewrite Htrig, Hev. discriminate.
Qed.

(** ** Suspended handlers and their events *)

Lemma map_id_write_analysis (d description : string) (p : list DetectionEvent) :
  map id (write_analysis d description p) = map id p.
Proof.
  unfold write_analysis. rewrite map_map. apply map_ext.
  intros e. destruct (String.eqb (id e) d); reflexivity.
Qed.

Lemma elem_of_write_analysis (d description : string) (p : list DetectionEvent)
    (e' : DetectionEvent) :
  e' ∈ write_analysis d description p ->
  exists e : DetectionEvent,
    e ∈ p /\ id e' = id e /\
    ((id e = d /\ analysis e' = Some description /\ isAnalyzing e' = false) \/
     (id e <> d /\ e' = e)).
Proof.
  induction p as [|e p IH]; cbn [write_analysis map].
  - intros H. inversion H.
  - intros H. apply elem_of_cons in H as [-> | H].
    + exists e. split; [left|].
      destruct (String.eqb_spec (id e) d); cbn; auto.
    + destruct (IH H) as (e0 & Hin & Hrest). exists e0. split; [right|]; assumption.
Qed.

Lemma lifecycle_step_awaiting (a : Action) (s : CameraView) :
  lifecycle a -> awaiting (step a s) = awaiting s.
Proof.
  destruct a; cbn [lifecycle step]; intros Hl; try contradiction.
  - destruct (commit_frame (isMonitoring s) (hasCameraPermission s)
                (set_isMonitoring (negb (isMonitoring s)) s))
      as (_ & _ & _ & _ & _ & _ & -> & _). reflexivity.
  - explode s; destruct cr; reflexivity.
  - explode s; destruct cr; reflexivity.
  - unfold onCall. destruct (mediaStreamRef s); reflexivity.
Qed.

Lemma tick_pipeline_cases (t : Tick) (s : CameraView) :
  (events (onAnimationFrame t s) = events s /\
   awaiting (onAnimationFrame t s) = awaiting s /\
   apiRequests (onAnimationFrame t s) = apiRequests s) \/
  (exists m : bool,
      events (onAnimationFrame t s)
      = newEvent (dataUrl t) (now t) (date t) :: events s /\
      awaiting (onAnimationFrame t s)
      = awaiting s ++ [{| newEventId := pretty (now t); image := dataUrl t;
                          closureMonitoring := m |}] /\
      apiRequests (onAnimationFrame t s)
      = apiRequests s ++ [analyzeImage_request (dataUrl t)]).
Proof.
  unfold onAnimationFrame, detectionLoop, drawAndCompare, handleMotionDetected,
    submit.
  cbn. split_state_cases; auto; right; eexists; repeat split.
Qed.

Lemma analysisSettled_pipeline (k : nat) (outcome : ApiOutcome)
    (s : CameraView) (h : Suspended) :
  awaiting s !! k = Some h ->
  awaiting (analysisSettled k outcome s) = delete k (awaiting s) /\
  apiRequests (analysisSettled k outcome s) = apiRequests s.
Proof.
  intros Hk. unfold analysisSettled, handleMotionDetected_resume. rewrite Hk.
  destruct (analyzeImage (image h) outcome), (closureMonitoring h); split; reflexivity.
Qed.

Lemma step_awaiting_have_events (a : Action) (s : CameraView) :
  awaiting_have_events s -> awaiting_have_events (step a s).
Proof.
  unfold awaiting_have_events. intros Hinv.
  destruct a as [ | stream | err | t | call | k outcome].
  1-3, 5: rewrite lifecycle_step_awaiting, lifecycle_step_events by exact I;
    exact Hinv.
  - cbn [step].
    destruct (tick_pipeline_cases t s) as [(-> & -> & _) | (m & -> & -> & _)];
      [exact Hinv|].
    intros h Hh. cbn [map newEvent id].
    apply elem_of_app in Hh as [Hh | Hh].
    + right. apply Hinv, Hh.
    + apply list_elem_of_singleton in Hh as ->. left.
  - cbn [step]. destruct (awaiting s !! k) as [h0|] eqn:Hk.
    + destruct (analysisSettled_pipeline k outcome s h0 Hk) as [-> _].
      destruct (analyzeImage_returns (image h0) outcome) as (d & Hd & _).
      rewrite (analysisSettled_events k outcome s h0 d Hk Hd).
      rewrite map_id_write_analysis.
      intros h Hh. apply Hinv. eapply list_elem_of_delete_inv, Hh.
    + unfold analysisSettled. rewrite Hk. exact Hinv.
Qed.

Lemma run_awaiting_have_events (acts : list Action) :
  forall s : CameraView,
    awaiting_have_events s -> awaiting_have_events (run acts s).
Proof.
  induction acts as [|a acts IH]; intros s H; [exact H|].
  cbn [run]. apply IH, step_awaiting_have_events, H.
Qed.

Lemma mounted_awaiting_have_events (supported : bool) :
  awaiting_have_events (mounted supported).
Proof. intros h Hh. inversion Hh. Qed.

Lemma elem_of_map_id (d : string) (p : list DetectionEvent) :
  d ∈ map id p -> exists e : DetectionEvent, e ∈ p /\ id e = d.
Proof.
  induction p as [|e p IH]; cbn [map]; intros H; [inversion H|].
  apply elem_of_cons in H as [-> | H].
  - exists e. split; [left | reflexivity].
  - destruct (IH H) as (e0 & Hin & Hid). exists e0. split; [right|]; assumption.
Qed.

(** C7. In any reachable state, when the analysis call of a suspended
    handler fails, [analyzeImage] returns a message beginning with "Erro"
    instead of throwing; the handler's event exists and ends with that
    message in [analysis] and with [isAnalyzing] false; every other event is
    as it was; no further request is issued and the handler is gone from
    the suspended ones; the loop's scheduling, the gate, the previous-frame
    buffer and the camera are untouched, so a trigger that the gate permits
    afterwards creates its event as usual. *)
Theorem analysis_failure_handling (supported : bool) (acts : list Action)
    (k : nat) (h : Suspended) (outcome : ApiOutcome) :
  let s := run acts (mounted supported) in
  let s' := step (AnalysisSettled k outcome) s in
  awaiting s !! k = Some h ->
  failed outcome = true ->
  exists msg : string,
    analyzeImage (image h) outcome = Returns msg /\
    String.prefix "Erro" msg = true /\
    (exists e' : DetectionEvent, e' ∈ events s' /\ id e' = newEventId h) /\
    (forall e' : DetectionEvent,
        e' ∈ events s' -> id e' = newEventId h ->
        analysis e' = Some msg /\ isAnalyzing e' = false) /\
    (forall e' : DetectionEvent,
        e' ∈ events s' -> id e' <> newEventId h -> e' ∈ events s) /\
    map id (events s') = map id (events s) /\
    apiRequests s' = apiRequests s /\
    awaiting s' = delete k (awaiting s) /\
    isMonitoring s' = isMonitoring s /\
    hasCameraPermission s' = hasCameraPermission s /\
    animationFrame s' = animationFrame s /\
    lastDetectionTime s' = lastDetectionTime s /\
    oldCanvasData s' = oldCanvasData s /\
    mediaStreamRef s' = mediaStreamRef s /\
    (forall (m : bool) (img : string) (now date : Z),
        COOLDOWN_SECONDS * 1000 <= now - lastDetectionTime s' ->
        events (handleMotionDetected m img now date s')
        = newEvent img now date :: events s').
Proof.
  cbv zeta. intros Hk Hfail. set (s := run acts (mounted supported)) in *.
  destruct (analyzeImage_returns (image h) outcome) as (msg & Hmsg & Hprefix).
  exists msg. split; [exact Hmsg|]. split; [exact (Hprefix Hfail)|].
  cbn [step].
  pose proof (analysisSettled_events k outcome s h msg Hk Hmsg) as Hev.
  destruct (analysisSettled_pipeline k outcome s h Hk) as [Haw Hreq].
  destruct (analysisSettled_frame k outcome s)
    as (Hmon & Hperm & Hlast & Haf & Hold & Hmsr & _).
  assert (Hids : map id (events (analysisSettled k outcome s)) = map id (events s))
    by (rewrite Hev; apply map_id_write_analysis).
  repeat split; try assumption.
  - assert (Hin : newEventId h ∈ map id (events (analysisSettled k outcome s))).
    { rewrite Hids.
      apply (run_awaiting_have_events acts _ (mounted_awaiting_have_events supported)).
      eapply list_elem_of_lookup_2, Hk. }
    apply elem_of_map_id in Hin. exact Hin.
  - rewrite Hev in H. apply elem_of_write_analysis in H
      as (e & _ & Hid & [(_ & Ha & _) | (Hne & _)]); [exact Ha | congruence].
  - rewrite Hev in H. apply elem_of_write_analysis in H
      as (e & _ & Hid & [(_ & _ & Hb) | (Hne & _)]); [exact Hb | congruence].
  - intros e' Hin Hne. rewrite Hev in Hin. apply elem_of_write_analysis in Hin
      as (e & Hine & Hid & [(Heq & _) | (_ & ->)]); [congruence | exact Hine].
  - intros m img now date Hgate.
    rewrite handleMotionDetected_permitted by exact Hgate. reflexivity.
Qed.

Lemma tick_motion_awaiting (t : Tick) (s : CameraView) (v : MediaStream)
    (currentData : list Z) :
  animationFrame s = Some true -> videoSrcObject s = Some v ->
  frame t = Some currentData ->
  exceeds currentData (oldCanvasData s) = true ->
  COOLDOWN_SECONDS * 1000 <= now t - lastDetectionTime s ->
  awaiting (step (AnimationFrame t) s)
  = awaiting s ++ [{| newEventId := pretty (now t); image := dataUrl t;
                      closureMonitoring := true |}].
Proof.
  intros Haf Hv Hf Hex Hgate. cbn [step].
  unfold onAnimationFrame, detectionLoop, drawAndCompare.
  rewrite Haf. cbn. rewrite Hv, Hf, Hex.
  rewrite handleMotionDetected_permitted by exact Hgate.
  reflexivity.
Qed.

Lemma run_snoc (acts : list Action) (a : Action) :
  forall s : CameraView, run (acts ++ [a]) s = step a (run acts s).
Proof. induction acts as [|b acts IH]; intros s; [reflexivity | apply IH]. Qed.

Lemma white_tick_session :
  awaiting (step (AnimationFrame white_tick)
              (run [ToggleMonitoring; GetUserMediaResolved 0%nat] (mounted true)))
  = [white_handler].
Proof.
  destruct (started_session 0%nat) as (Haf & Hv & Hold & Hlast & Hev).
  rewrite (tick_motion_awaiting white_tick _ 0%nat white_frame Haf Hv eq_refl).
  - reflexivity.
  - rewrite Hold. unfold white_frame, blank_canvas.
    rewrite exceeds_buffer.
    + apply Z.ltb_lt.
      rewrite <- (repeat_length white_pixel (CANVAS_WIDTH * CANVAS_HEIGHT)) at 3.
      exact white_frame_is_bright.
    + rewrite !repeat_length. reflexivity.
    + intros H. apply (f_equal length) in H. rewrite repeat_length in H.
      discriminate H.
  - rewrite Hlast. vm_compute. discriminate.
Qed.

Lemma analysis_failure_handling_witness :
  let s := run ([ToggleMonitoring; GetUserMediaResolved 0%nat]
                ++ [AnimationFrame white_tick]) (mounted true) in
  let outcome := Rejected (ErrorObj "TypeError" "Failed to fetch") in
  let s' := step (AnalysisSettled 0 outcome) s in
  awaiting s !! 0%nat = Some white_handler /\
  failed outcome = true /\
  (exists e' : DetectionEvent,
      e' ∈ events s' /\ id e' = newEventId white_handler /\
      analysis e' = Some "Erro na análise da IA: Failed to fetch"%string /\
      isAnalyzing e' = false) /\
  apiRequests s' = apiRequests s.
Proof.
  cbv zeta.
  assert (Hk : awaiting (run ([ToggleMonitoring; GetUserMediaResolved 0%nat]
                              ++ [AnimationFrame white_tick]) (mounted true))
               !! 0%nat = Some white_handler)
    by (rewrite run_snoc, white_tick_session; reflexivity).
  destruct (analysis_failure_handling true _ 0%nat white_handler
              (Rejected (ErrorObj "TypeError" "Failed to fetch")) Hk eq_refl)
    as (msg & Hmsg & _ & (e' & Hin & Hid) & Hset & _ & _ & Hreq & _).
  injection Hmsg as <-.
  split; [exact Hk|]. split; [reflexivity|]. split; [|exact Hreq].
  exists e'. destruct (Hset e' Hin Hid) as [Ha Hb]. repeat split; assumption.
Defined.

(** ** The analysis pipeline under any interleaving *)




Lemma writes_to_app (d : string) (l1 l2 : list string) :
  writes_to d (l1 ++ l2) = (writes_to d l1 + writes_to d l2)%nat.
Proof. unfold writes_to. rewrite filter_app, length_app. reflexivity. Qed.

Lemma writes_to_absent (d : string) (l : list string) :
  d ∉ l -> writes_to d l = 0%nat.
Proof.
  unfold writes_to. induction l as [|x l IH]; intros Hd; [reflexivity|].
  apply not_elem_of_cons in Hd as [Hne Hd].
  rewrite filter_cons_False by congruence. apply IH, Hd.
Qed.

Lemma writes_to_selected_other (d d' : string) (l : list string) :
  d <> d' -> writes_to d (filter (fun x => x = d') l) = 0%nat.
Proof.
  intros Hne. apply writes_to_absent. intros Hin.
  apply list_elem_of_filter in Hin as [Heq _]. congruence.
Qed.

Lemma writes_to_selected_same (d : string) (l : list string) :
  NoDup l -> d ∈ l -> writes_to d (filter (fun x => x = d) l) = 1%nat.
Proof.
  unfold writes_to. induction 1 as [|x l Hx Hnd IH]; intros Hin; [inversion Hin|].
  destruct (decide (x = d)) as [-> | Hne].
  - rewrite !filter_cons_True by reflexivity. cbn [length]. f_equal.
    apply (writes_to_absent d). intros Hin'.
    apply list_elem_of_filter in Hin' as [_ Hin']. contradiction.
  - rewrite filter_cons_False by exact Hne.
    apply elem_of_cons in Hin as [-> | Hin]; [congruence|]. apply IH, Hin.
Qed.

Lemma elem_of_delete_other {A : Type} (l : list A) :
  forall (k : nat) (x y : A),
    l !! k = Some y -> x ∈ l -> x <> y -> x ∈ delete k l.
Proof.
  induction l as [|z l IH]; intros k x y Hk Hin Hne; [inversion Hin|].
  destruct k as [|k]; cbn in Hk |- *.
  - injection Hk as ->. apply elem_of_cons in Hin as [-> | Hin]; [congruence | exact Hin].
  - apply elem_of_cons in Hin as [-> | Hin]; [left | right; eapply IH; eassumption].
Qed.

Lemma NoDup_lookup_delete {A : Type} (l : list A) :
  forall (k : nat) (x : A), NoDup l -> l !! k = Some x -> x ∉ delete k l.
Proof.
  induction l as [|z l IH]; intros k x Hnd Hk; [discriminate Hk|].
  apply NoDup_cons in Hnd as [Hz Hnd].
  destruct k as [|k]; cbn in Hk |- *.
  - injection Hk as ->. exact Hz.
  - intros Hin. apply elem_of_cons in Hin as [-> | Hin].
    + apply Hz. eapply list_elem_of_lookup_2, Hk.
    + exact (IH k x Hnd Hk Hin).
Qed.

Lemma map_delete {A B : Type} (f : A -> B) (l : list A) :
  forall k : nat, map f (delete k l) = delete k (map f l).
Proof.
  induction l as [|x l IH]; intros [|k]; try reflexivity.
  cbn. f_equal. apply IH.
Qed.

Lemma map_lookup {A B : Type} (f : A -> B) (l : list A) :
  forall (k : nat) (x : A), l !! k = Some x -> map f l !! k = Some (f x).
Proof.
  induction l as [|z l IH]; intros [|k] x Hk; try discriminate Hk.
  - injection Hk as ->. reflexivity.
  - apply IH, Hk.
Qed.

Lemma elem_of_map_intro {A B : Type} (f : A -> B) (l : list A) (x : A) :
  x ∈ l -> f x ∈ map f l.
Proof.
  induction 1 as [x l | x y l _ IH]; cbn [map]; [left | right; exact IH].
Qed.

Lemma elem_of_map_inv {A B : Type} (f : A -> B) (l : list A) (y : B) :
  y ∈ map f l -> exists x : A, x ∈ l /\ f x = y.
Proof.
  induction l as [|z l IH]; cbn [map]; intros H; [inversion H|].
  apply elem_of_cons in H as [-> | H].
  - exists z. split; [left | reflexivity].
  - destruct (IH H) as (x & Hin & Hx). exists x. split; [right|]; assumption.
Qed.


Lemma submit_pipeline_inv (m : bool) (img : string) (now date : Z)
    (s : CameraView) (log : list string) :
  pipeline_inv s log ->
  (pretty now : string) ∉ map id (events s) ->
  pipeline_inv (submit m img now date s) log.
Proof.
  intros (Hev & Haw & Hsub & Hlog & Hfields) Hfresh.
  assert (Hfresh_aw : (pretty now : string) ∉ map newEventId (awaiting s)).
  { intros Hin. apply elem_of_map_inv in Hin as (h & Hh & Heq).
    apply Hfresh. rewrite <- Heq. apply Hsub, Hh. }
  unfold pipeline_inv, submit. cbn. rewrite map_app. cbn [map newEventId].
  repeat split.
  - apply NoDup_cons. split; assumption.
  - apply NoDup_app. split; [exact Haw|]. split; [|apply NoDup_singleton].
    intros x Hx Hx'. apply list_elem_of_singleton in Hx' as ->. contradiction.
  - intros h Hh. apply elem_of_app in Hh as [Hh | Hh].
    + right. apply Hsub, Hh.
    + apply list_elem_of_singleton in Hh as ->. left.
  - intros d Hd. right. apply Hlog, Hd.
  - intros Han. apply elem_of_cons in H as [-> | He].
    + apply elem_of_app. right. left.
    + apply elem_of_app. left. apply (Hfields e He), Han.
  - intros Hin. apply elem_of_cons in H as [-> | He]; [reflexivity|].
    apply (Hfields e He). apply elem_of_app in Hin as [Hin | Hin]; [exact Hin|].
    apply list_elem_of_singleton in Hin.
    destruct Hfresh. rewrite <- Hin. apply elem_of_map_intro, He.
  - intros Han. apply elem_of_cons in H as [-> | He]; [reflexivity|].
    apply (Hfields e He), Han.
  - intros Han. apply elem_of_cons in H as [-> | He]; [discriminate Han|].
    apply (Hfields e He), Han.
  - apply elem_of_cons in H as [-> | He].
    + cbn. apply writes_to_absent. intros Hin. apply Hfresh, Hlog, Hin.
    + apply (Hfields e He).
Qed.

Lemma settle_pipeline_inv (k : nat) (outcome : ApiOutcome) (s : CameraView)
    (log : list string) :
  pipeline_inv s log ->
  pipeline_inv (analysisSettled k outcome s)
    (log ++ step_writes (Settle k outcome) s).
Proof.
  intros Hinv. cbn [step_writes].
  destruct (awaiting s !! k) as [h|] eqn:Hk.
  2:{ unfold analysisSettled. rewrite Hk, app_nil_r. exact Hinv. }
  destruct Hinv as (Hev & Haw & Hsub & Hlog & Hfields).
  destruct (analyzeImage_returns (image h) outcome) as (desc & Hdesc & _).
  pose proof (analysisSettled_events k outcome s h desc Hk Hdesc) as Hevents.
  destruct (analysisSettled_pipeline k outcome s h Hk) as [Hawaiting _].
  assert (Hh : h ∈ awaiting s) by (eapply list_elem_of_lookup_2, Hk).
  assert (Hd : newEventId h ∈ map id (events s)) by (apply Hsub, Hh).
  assert (Hgone : newEventId h ∉ map newEventId (delete k (awaiting s))).
  { rewrite map_delete. apply NoDup_lookup_delete; [exact Haw|].
    apply map_lookup, Hk. }
  unfold pipeline_inv. rewrite Hevents, Hawaiting, map_id_write_analysis.
  split; [exact Hev|]. split.
  { rewrite map_delete. eapply sublist_NoDup; [exact Haw | apply sublist_delete]. }
  split.
  { intros h' Hh'. apply Hsub. eapply list_elem_of_delete_inv, Hh'. }
  split.
  { intros d Hin. apply elem_of_app in Hin as [Hin | Hin]; [apply Hlog, Hin|].
    apply list_elem_of_filter in Hin as [_ Hin]. exact Hin. }
  intros e' He'.
  apply elem_of_write_analysis in He'
    as (e & He & Hid & [(Heq & Han & Hfalse) | (Hne & ->)]).
  - destruct (Hfields e He) as (Hiff & _ & _ & Hcount).
    assert (Htrue : isAnalyzing e = true).
    { apply Hiff. rewrite Heq. apply elem_of_map_intro, Hh. }
    rewrite Hfalse, Hid, Heq.
    split; [split; [discriminate | intros Hin; destruct (Hgone Hin)]|].
    split; [discriminate|]. split; [intros _; rewrite Han; discriminate|].
    rewrite writes_to_app, writes_to_selected_same by assumption.
    rewrite <- Heq, Hcount, Htrue. reflexivity.
  - destruct (Hfields e He) as (Hiff & Hnone & Hsome & Hcount).
    split; [|split; [exact Hnone | split; [exact Hsome|]]].
    + split.
      * intros Han. rewrite map_delete.
        eapply elem_of_delete_other;
          [apply map_lookup, Hk | apply Hiff, Han | exact Hne].
      * intros Hin. apply Hiff. eapply list_elem_of_delete_inv.
        rewrite <- map_delete. exact Hin.
    + rewrite writes_to_app, writes_to_selected_other by exact Hne.
      rewrite Nat.add_0_r. exact Hcount.
Qed.

Lemma empty_pipeline_inv (s : CameraView) :
  events s = [] -> awaiting s = [] -> pipeline_inv s [].
Proof.
  intros Hev Haw. unfold pipeline_inv. rewrite Hev, Haw. cbn [map].
  split; [apply NoDup_nil_2|]. split; [apply NoDup_nil_2|].
  split; [intros h Hh; inversion Hh|]. split; [intros d Hd; inversion Hd|].
  intros e He. inversion He.
Qed.




(** ** Ids are distinct when the clock advances between ticks *)

Lemma step_ids (a : Action) (s : CameraView) :
  map id (events (step a s)) = map id (events s) \/
  exists t : Tick,
    a = AnimationFrame t /\
    map id (events (step a s)) = pretty (now t) :: map id (events s).
Proof.
  destruct a as [ | stream | err | t | call | k outcome].
  1-3, 5: left; rewrite lifecycle_step_events by exact I; reflexivity.
  - cbn [step]. destruct (onAnimationFrame_events t s) as [-> | ->];
      [left; reflexivity | right; exists t; split; reflexivity].
  - left. cbn [step].
    destruct (analysisSettled_events_cases k outcome s)
      as [-> | (h & d & _ & ->)]; [reflexivity | apply map_id_write_analysis].
Qed.

Lemma step_ids_from_clock (a : Action) (lo : Z) (s : CameraView) :
  ids_from_clock lo s -> clocks_increase lo [a] ->
  ids_from_clock (match a with AnimationFrame t => now t | _ => lo end)
    (step a s).
Proof.
  intros [Hnd Hold] Hclock. unfold ids_from_clock.
  destruct (step_ids a s) as [-> | (t & -> & ->)].
  - split; [exact Hnd|]. intros d Hd. destruct (Hold d Hd) as (t' & -> & Hle).
    exists t'. split; [reflexivity|]. destruct a; cbn in Hclock; lia.
  - destruct Hclock as [Hlt _]. split.
    + apply NoDup_cons. split; [|exact Hnd].
      intros Hin. destruct (Hold _ Hin) as (t' & Heq & Hle).
      apply (inj pretty) in Heq. lia.
    + intros d Hd. apply elem_of_cons in Hd as [-> | Hd].
      * exists (now t). split; [reflexivity | lia].
      * destruct (Hold d Hd) as (t' & -> & Hle).
        exists t'. split; [reflexivity | lia].
Qed.

Lemma clocks_increase_head (a : Action) (acts : list Action) (lo : Z) :
  clocks_increase lo (a :: acts) ->
  clocks_increase lo [a] /\
  clocks_increase (match a with AnimationFrame t => now t | _ => lo end) acts.
Proof. destruct a; cbn; tauto. Qed.

Lemma run_ids_from_clock (acts : list Action) :
  forall (lo : Z) (s : CameraView),
    ids_from_clock lo s -> clocks_increase lo acts ->
    exists hi : Z, ids_from_clock hi (run acts s).
Proof.
  induction acts as [|a acts IH]; intros lo s Hids Hclock.
  - exists lo. exact Hids.
  - apply clocks_increase_head in Hclock as [Hone Hrest]. cbn [run].
    eapply IH; [|exact Hrest]. apply step_ids_from_clock; assumption.
Qed.

Lemma reachable_event_ids_distinct (acts : list Action) (lo : Z)
    (s : CameraView) :
  ids_from_clock lo s -> clocks_increase lo acts ->
  NoDup (map id (events (run acts s))).
Proof.
  intros Hids Hclock.
  destruct (run_ids_from_clock acts lo s Hids Hclock) as [hi [Hnd _]].
  exact Hnd.
Qed.



Lemma mounted_event_ids_distinct (supported : bool) (acts : list Action)
    (lo : Z) :
  clocks_increase lo acts ->
  NoDup (map id (events (run acts (mounted supported)))).
Proof.
  apply reachable_event_ids_distinct. split; [apply NoDup_nil_2|].
  intros d Hd. inversion Hd.
Qed.

(** ** The pipeline invariant in the running component *)

Lemma pipeline_inv_ext (s s' : CameraView) (log : list string) :
  events s' = events s -> awaiting s' = awaiting s ->
  pipeline_inv s log -> pipeline_inv s' log.
Proof. unfold pipeline_inv. intros -> -> Hinv. exact Hinv. Qed.


Lemma step_pipeline_inv (a : Action) (lo : Z) (s : CameraView)
    (log : list string) :
  ids_from_clock lo s -> clocks_increase lo [a] -> pipeline_inv s log ->
  exists log' : list string, pipeline_inv (step a s) log'.
Proof.
  intros [_ Hold] Hclock Hinv.
  destruct a as [ | stream | err | t | call | k outcome].
  1-3, 5: exists log; apply (pipeline_inv_ext s); [| |exact Hinv];
    [apply lifecycle_step_events | apply lifecycle_step_awaiting]; exact I.
  - exists log. cbn [step].
    destruct (tick_pipeline_cases t s) as [(He & Ha & _) | (m & He & Ha & _)].
    + apply (pipeline_inv_ext s); assumption.
    + apply (pipeline_inv_ext (submit m (dataUrl t) (now t) (date t) s));
        [exact He | exact Ha |].
      apply submit_pipeline_inv; [exact Hinv|].
      intros Hin. destruct (Hold _ Hin) as (t' & Heq & Hle).
      apply (inj pretty) in Heq. destruct Hclock as [Hlt _]. lia.
  - eexists. cbn [step]. apply settle_pipeline_inv. exact Hinv.
Qed.

(** In every state the component reaches while the clock advances from tick
    to tick, an event is analyzing exactly while its handler waits, has no
    analysis while analyzing and has one afterwards. *)
Lemma reachable_pipeline_inv (acts : list Action) :
  forall (lo : Z) (s : CameraView) (log : list string),
    ids_from_clock lo s -> pipeline_inv s log -> clocks_increase lo acts ->
    exists log' : list string, pipeline_inv (run acts s) log'.
Proof.
  induction acts as [|a acts IH]; intros lo s log Hids Hinv Hclock.
  - exists log. exact Hinv.
  - apply clocks_increase_head in Hclock as [Hone Hrest].
    destruct (step_pipeline_inv a lo s log Hids Hone Hinv) as [log' Hinv'].
    cbn [run]. eapply IH; [|exact Hinv'|exact Hrest].
    apply step_ids_from_clock; assumption.
Qed.

Lemma mounted_pipeline_inv (supported : bool) (acts : list Action) (lo : Z) :
  clocks_increase lo acts ->
  exists log : list string, pipeline_inv (run acts (mounted supported)) log.
Proof.
  intros Hclock. apply (reachable_pipeline_inv acts lo _ []); [| |exact Hclock].
  - split; [apply NoDup_nil_2|]. intros d Hd. inversion Hd.
  - apply empty_pipeline_inv; reflexivity.
Qed.

(** * Further properties of the code *)

Import Display Invariants.

(** ** The payload of a data URL ([fileToGenerativePart]) *)

Lemma until_comma_free (p : string) :
  comma_free p = true -> until_comma p = p.
Proof.
  induction p as [|c p IH]; [reflexivity|]. cbn [comma_free until_comma].
  destruct (Ascii.eqb c comma); [discriminate|]. cbn. intros H. rewrite IH; auto.
Qed.

Lemma until_comma_stops (p rest : string) :
  comma_free p = true -> until_comma (p +:+ String comma rest) = p.
Proof.
  induction p as [|c p IH].
  - reflexivity.
  - cbn [comma_free]. change (String c p +:+ String comma rest)%string
      with (String c (p +:+ String comma rest)). cbn [until_comma].
    destruct (Ascii.eqb c comma); [discriminate|]. cbn [negb andb].
    intros H. rewrite IH; auto.
Qed.

Lemma split_after_header (hdr rest : string) :
  comma_free hdr = true ->
  split_comma_1 (hdr +:+ String comma rest) = Some (until_comma rest).
Proof.
  induction hdr as [|c hdr IH].
  - reflexivity.
  - cbn [comma_free]. change (String c hdr +:+ String comma rest)%string
      with (String c (hdr +:+ String comma rest)). cbn [split_comma_1].
    destruct (Ascii.eqb c comma); [discriminate|]. cbn [negb andb]. exact IH.
Qed.

Lemma split_without_comma (s : string) :
  comma_free s = true -> split_comma_1 s = None.
Proof.
  induction s as [|c s IH]; [reflexivity|]. cbn [comma_free split_comma_1].
  destruct (Ascii.eqb c comma); [discriminate|]. cbn. exact IH.
Qed.

(** X1. For a data URL made of a comma-free header, a comma and a comma-free
    payload, [fileToGenerativePart] sends exactly the payload, also when
    further commas follow; for a string without a comma the [data] field is
    [undefined]. *)
Theorem data_url_payload (hdr payload rest mime : string) :
  comma_free hdr = true -> comma_free payload = true ->
  split_comma_1 (hdr +:+ "," +:+ payload) = Some payload /\
  split_comma_1 (hdr +:+ "," +:+ payload +:+ "," +:+ rest) = Some payload /\
  split_comma_1 hdr = None /\
  fileToGenerativePart (hdr +:+ "," +:+ payload) mime
  = InlinePart {| data := Some payload; mimeType := mime |}.
Proof.
  intros Hh Hp.
  change ("," +:+ payload) with (String comma payload).
  change ("," +:+ payload +:+ "," +:+ rest)
    with (String comma (payload +:+ String comma rest)).
  assert (H1 : split_comma_1 (hdr +:+ String comma payload) = Some payload).
  { rewrite split_after_header by exact Hh. rewrite until_comma_free by exact Hp.
    reflexivity. }
  split; [exact H1|]. split.
  { rewrite split_after_header by exact Hh. rewrite until_comma_stops by exact Hp.
    reflexivity. }
  split; [apply split_without_comma, Hh|].
  unfold fileToGenerativePart. rewrite H1. reflexivity.
Qed.

Lemma data_url_payload_witness :
  comma_free "data:image/jpeg;base64" = true /\
  comma_free "/9j/4AAQSkZJRg==" = true /\
  split_comma_1 "data:image/jpeg;base64,/9j/4AAQSkZJRg=="
  = Some "/9j/4AAQSkZJRg=="%string.
Proof.
  split; [reflexivity|]. split; [reflexivity|].
  exact (proj1 (data_url_payload "data:image/jpeg;base64" "/9j/4AAQSkZJRg==" ""
                  "image/jpeg" eq_refl eq_refl)).
Defined.

(** ** What [analyzeImage] returns *)

Lemma analyzeImage_nonempty (imageDataUrl : string) (outcome : ApiOutcome) :
  exists d : string,
    analyzeImage imageDataUrl outcome = Returns d /\ d <> ""%string.
Proof.
  unfold analyzeImage, analyzeImage_try.
  destruct outcome as [[[[t|]]|] | [name message|] | [name message|]];
    try (eexists; split; [reflexivity | discriminate]).
  cbn. destruct (String.eqb_spec t ""); eexists; (split; [reflexivity|]);
    [discriminate | assumption].
Qed.

(** X2. [analyzeImage] never returns the empty string; when the response
    carries a non-empty text it returns that text unchanged, and it returns
    a response's text only in that case: every other outcome counts as
    failed. *)
Theorem analyzeImage_description (imageDataUrl : string) (outcome : ApiOutcome) :
  exists d : string,
    analyzeImage imageDataUrl outcome = Returns d /\
    d <> ""%string /\
    (forall (r : GenerateContentResponse) (t : string),
        outcome = Resolved (Some r) -> text r = Some t -> t <> ""%string ->
        d = t /\ failed outcome = false) /\
    (failed outcome = false ->
     exists r : GenerateContentResponse,
       outcome = Resolved (Some r) /\ text r = Some d).
Proof.
  destruct (analyzeImage_nonempty imageDataUrl outcome) as (d & Hd & Hne).
  exists d. split; [exact Hd|]. split; [exact Hne|]. split.
  - intros r t -> Ht Hnz. unfold analyzeImage, failed, analyzeImage_try in *.
    rewrite Ht in *. destruct (String.eqb_spec t ""); [contradiction|].
    injection Hd as <-. split; reflexivity.
  - unfold analyzeImage, failed, analyzeImage_try in *.
    destruct outcome as [[[[t|]]|] | e | e]; try discriminate.
    cbn in *. destruct (String.eqb_spec t ""); [discriminate|].
    injection Hd as <-. intros _. eexists. split; reflexivity.
Qed.

(** ** Invariants along runs *)

Lemma run_invariant (P : CameraView -> Prop) :
  (forall (a : Action) (s : CameraView), P s -> P (step a s)) ->
  forall (acts : list Action) (s : CameraView), P s -> P (run acts s).
Proof.
  intros Hstep acts. induction acts as [|a acts IH]; intros s Hs; [exact Hs|].
  cbn [run]. apply IH, Hstep, Hs.
Qed.

Lemma lifecycle_step_apiRequests (a : Action) (s : CameraView) :
  lifecycle a -> apiRequests (step a s) = apiRequests s.
Proof.
  destruct a; cbn [lifecycle step]; intros Hl; try contradiction.
  - destruct (commit_frame (isMonitoring s) (hasCameraPermission s)
                (set_isMonitoring (negb (isMonitoring s)) s))
      as (_ & _ & _ & _ & _ & -> & _). reflexivity.
  - explode s; destruct cr; reflexivity.
  - explode s; destruct cr; reflexivity.
  - unfold onCall. destruct (mediaStreamRef s); reflexivity.
Qed.

(** How a transition changes the pipeline's three lists. *)
Lemma step_pipeline_cases (a : Action) (s : CameraView) :
  (events (step a s) = events s /\ awaiting (step a s) = awaiting s /\
   apiRequests (step a s) = apiRequests s) \/
  (exists (t : Tick) (m : bool),
      a = AnimationFrame t /\
      events (step a s) = newEvent (dataUrl t) (now t) (date t) :: events s /\
      awaiting (step a s)
      = awaiting s ++ [{| newEventId := pretty (now t); image := dataUrl t;
                          closureMonitoring := m |}] /\
      apiRequests (step a s)
      = apiRequests s ++ [analyzeImage_request (dataUrl t)]) \/
  (exists (k : nat) (outcome : ApiOutcome) (h : Suspended) (d : string),
      a = AnalysisSettled k outcome /\ awaiting s !! k = Some h /\
      d <> ""%string /\
      events (step a s) = write_analysis (newEventId h) d (events s) /\
      awaiting (step a s) = delete k (awaiting s) /\
      apiRequests (step a s) = apiRequests s).
Proof.
  destruct a as [ | stream | err | t | call | k outcome].
  1-3, 5: left;
    rewrite lifecycle_step_events, lifecycle_step_awaiting,
      lifecycle_step_apiRequests by exact I; repeat split.
  - cbn [step].
    destruct (tick_pipeline_cases t s) as [H | (m & He & Ha & Hr)];
      [left; exact H|].
    right. left. exists t, m. repeat split; assumption.
  - cbn [step]. destruct (awaiting s !! k) as [h|] eqn:Hk.
    + right. right.
      destruct (analyzeImage_nonempty (image h) outcome) as (d & Hd & Hne).
      destruct (analysisSettled_pipeline k outcome s h Hk) as [Ha Hr].
      exists k, outcome, h, d. repeat split; try assumption.
      apply analysisSettled_events; assumption.
    + left. unfold analysisSettled. rewrite Hk. repeat split.
Qed.

(** ** What an event card shows *)

Lemma step_analysis_present (a : Action) (s : CameraView) :
  (forall e : DetectionEvent, e ∈ events s -> analysis_present e) ->
  forall e : DetectionEvent, e ∈ events (step a s) -> analysis_present e.
Proof.
  intros Hinv e He.
  destruct (step_pipeline_cases a s)
    as [(Hev & _) | [(t & m & _ & Hev & _) | (k & o & h & d & _ & _ & Hne & Hev & _)]];
    rewrite Hev in He.
  - apply Hinv, He.
  - apply elem_of_cons in He as [-> | He]; [|apply Hinv, He].
    intros Hfalse. discriminate Hfalse.
  - apply elem_of_write_analysis in He
      as (e0 & He0 & _ & [(_ & Ha & _) | (_ & ->)]); [|apply Hinv, He0].
    intros _. exists d. split; assumption.
Qed.

(** X3. In every state the camera view reaches, an event card shows either
    the spinner (while the event is analyzing) or the stored analysis
    itself, which is never empty: the fallback text of [EventCard] is never
    what makes the paragraph. *)
Theorem event_card_shows_analysis (supported : bool) (acts : list Action)
    (e : DetectionEvent) :
  e ∈ events (run acts (mounted supported)) ->
  (isAnalyzing e = true /\ EventCard e = Spinner) \/
  (exists a : string,
      isAnalyzing e = false /\ analysis e = Some a /\ a <> ""%string /\
      EventCard e = Description a).
Proof.
  intros He.
  assert (Hpresent : analysis_present e).
  { revert e He.
    apply (run_invariant
             (fun s => forall e, e ∈ events s -> analysis_present e)).
    - apply step_analysis_present.
    - intros e He. inversion He. }
  unfold EventCard. destruct (isAnalyzing e) eqn:Han; [left; split; reflexivity|].
  right. destruct (Hpresent Han) as (a & Ha & Hne).
  exists a. rewrite Ha. cbn [or_else].
  destruct (String.eqb_spec a ""); [contradiction|]. repeat split; assumption.
Qed.

(** ** Analyzing events and waiting handlers *)

Lemma step_analyzing_have_handlers (a : Action) (s : CameraView) :
  analyzing_have_handlers s -> analyzing_have_handlers (step a s).
Proof.
  unfold analyzing_have_handlers. intros Hinv e He Han.
  destruct (step_pipeline_cases a s)
    as [(Hev & Haw & _) | [(t & m & _ & Hev & Haw & _)
                          | (k & o & h & d & _ & Hk & _ & Hev & Haw & _)]];
    rewrite Hev in He; rewrite Haw.
  - apply Hinv; assumption.
  - rewrite map_app. apply elem_of_app.
    apply elem_of_cons in He as [-> | He].
    + right. left.
    + left. apply Hinv; assumption.
  - apply elem_of_write_analysis in He
      as (e0 & He0 & Hid & [(_ & _ & Hfalse) | (Hne & ->)]); [congruence|].
    rewrite map_delete.
    eapply elem_of_delete_other;
      [apply map_lookup, Hk | apply Hinv; assumption | exact Hne].
Qed.

(** X15. In every state the camera view reaches, an event that is still
    analyzing has a handler waiting for its analysis call; so once no call
    is outstanding, no card shows the spinner. *)
Theorem spinner_has_pending_call (supported : bool) (acts : list Action) :
  let s := run acts (mounted supported) in
  (forall e : DetectionEvent,
      e ∈ events s -> isAnalyzing e = true ->
      id e ∈ map newEventId (awaiting s)) /\
  (awaiting s = [] ->
   forall e : DetectionEvent,
     e ∈ events s -> isAnalyzing e = false /\ EventCard e <> Spinner).
Proof.
  cbv zeta.
  assert (Hinv : analyzing_have_handlers (run acts (mounted supported))).
  { apply run_invariant; [apply step_analyzing_have_handlers|].
    intros e He. inversion He. }
  split; [exact Hinv|].
  intros Hnone e He.
  assert (Hfalse : isAnalyzing e = false).
  { destruct (isAnalyzing e) eqn:Han; [|reflexivity].
    pose proof (Hinv e He Han) as Hin. rewrite Hnone in Hin. inversion Hin. }
  split; [exact Hfalse|]. unfold EventCard. rewrite Hfalse. discriminate.
Qed.

(** ** One request per event *)

Lemma map_image_write_analysis (d description : string)
    (p : list DetectionEvent) :
  map imageDataUrl (write_analysis d description p) = map imageDataUrl p.
Proof.
  unfold write_analysis. rewrite map_map. apply map_ext.
  intros e. destruct (String.eqb (id e) d); reflexivity.
Qed.

Lemma requests_of_images (p : list DetectionEvent) :
  map (fun e => analyzeImage_request (imageDataUrl e)) (rev p)
  = map analyzeImage_request (rev (map imageDataUrl p)).
Proof. rewrite <- map_rev, map_map. reflexivity. Qed.

Lemma step_requests_match_events (a : Action) (s : CameraView) :
  requests_match_events s -> requests_match_events (step a s).
Proof.
  unfold requests_match_events. intros Hinv.
  destruct (step_pipeline_cases a s)
    as [(Hev & _ & Hr) | [(t & m & _ & Hev & _ & Hr)
                         | (k & o & h & d & _ & _ & _ & Hev & _ & Hr)]];
    rewrite Hev, Hr, Hinv.
  - reflexivity.
  - cbn [rev]. rewrite map_app. reflexivity.
  - rewrite !requests_of_images, map_image_write_analysis. reflexivity.
Qed.

(** X16. In every state the camera view reaches, the analysis requests
    issued so far are exactly one per detection event, for that event's
    image, in the order the events were created. *)
Theorem one_request_per_event (supported : bool) (acts : list Action) :
  let s := run acts (mounted supported) in
  apiRequests s
  = map (fun e => analyzeImage_request (imageDataUrl e)) (rev (events s)) /\
  length (apiRequests s) = length (events s).
Proof.
  cbv zeta.
  assert (Hinv : requests_match_events (run acts (mounted supported)))
    by (apply run_invariant; [apply step_requests_match_events | reflexivity]).
  split; [exact Hinv|].
  rewrite Hinv, length_map, length_rev. reflexivity.
Qed.

(** ** A bright frame after the start, for the witnesses *)

Lemma white_tick_events :
  events (run ([ToggleMonitoring; GetUserMediaResolved 0%nat]
               ++ [AnimationFrame white_tick]) (mounted true))
  = [newEvent (dataUrl white_tick) (now white_tick) (date white_tick)].
Proof.
  rewrite run_snoc.
  destruct (started_session 0%nat) as (Haf & Hv & Hold & Hlast & Hev).
  assert (Hnow : COOLDOWN_SECONDS * 1000 <= now white_tick)
    by (vm_compute; discriminate).
  destruct (tick_against_blank _ 0%nat white_tick
              (repeat white_pixel (CANVAS_WIDTH * CANVAS_HEIGHT))
              Haf Hv Hold Hlast eq_refl (repeat_length _ _) Hnow)
    as [Htrig _].
  rewrite (Htrig white_frame_is_bright), Hev. reflexivity.
Qed.

Lemma event_card_shows_analysis_witness :
  let e := newEvent (dataUrl white_tick) (now white_tick) (date white_tick) in
  e ∈ events (run ([ToggleMonitoring; GetUserMediaResolved 0%nat]
                   ++ [AnimationFrame white_tick]) (mounted true)) /\
  EventCard e = Spinner.
Proof.
  cbv zeta.
  assert (Hin : newEvent (dataUrl white_tick) (now white_tick) (date white_tick)
                ∈ events (run ([ToggleMonitoring; GetUserMediaResolved 0%nat]
                               ++ [AnimationFrame white_tick]) (mounted true)))
    by (rewrite white_tick_events; left).
  split; [exact Hin|].
  destruct (event_card_shows_analysis true _ _ Hin)
    as [[_ Hcard] | (a & Hfalse & _)]; [exact Hcard | discriminate Hfalse].
Defined.

(** ** The rule of one tick *)





(** ** An unchanged scene *)






(** ** At most one event per cooldown window *)





(** ** When the loop is scheduled *)

Lemma step_loop_exact (a : Action) (s : CameraView) :
  loop_exact s -> loop_exact (step a s).
Proof.
  unfold loop_exact.
  destruct a as [ | stream | err | t | call | k outcome]; cbn [step]; intros H.
  - explode s; cbn in H |- *; congruence.
  - explode s; destruct cr; cbn in H |- *; congruence.
  - explode s; destruct cr; cbn in H |- *; congruence.
  - destruct (onAnimationFrame_frame t s) as (-> & -> & ->). rewrite H.
    destruct (isMonitoring s && truthy (hasCameraPermission s)); reflexivity.
  - unfold onCall. destruct (mediaStreamRef s); exact H.
  - destruct (analysisSettled_frame k outcome s) as (-> & -> & _ & -> & _).
    exact H.
Qed.

(** X7. In every state the camera view reaches, the next detection tick is
    scheduled exactly when monitoring is switched on and the camera
    permission has been granted; when none is scheduled an animation frame
    changes nothing. *)
Theorem loop_scheduled_exactly (supported : bool) (acts : list Action) :
  let s := run acts (mounted supported) in
  (animationFrame s = Some true <->
   isMonitoring s = true /\ hasCameraPermission s = Some true) /\
  (animationFrame s = None <->
   isMonitoring s = false \/ hasCameraPermission s <> Some true) /\
  (isMonitoring s = false \/ hasCameraPermission s <> Some true ->
   forall t : Tick, step (AnimationFrame t) s = s).
Proof.
  cbv zeta.
  assert (Hinv : loop_exact (run acts (mounted supported)))
    by (apply run_invariant; [apply step_loop_exact | reflexivity]).
  unfold loop_exact in Hinv.
  set (s := run acts (mounted supported)) in *.
  assert (Hnone : isMonitoring s = false \/ hasCameraPermission s <> Some true ->
                  animationFrame s = None).
  { rewrite Hinv. destruct (isMonitoring s), (hasCameraPermission s) as [[|]|];
      cbn; intuition congruence. }
  split; [|split].
  - rewrite Hinv. destruct (isMonitoring s), (hasCameraPermission s) as [[|]|];
      cbn; intuition congruence.
  - split; [|exact Hnone]. rewrite Hinv.
    destruct (isMonitoring s), (hasCameraPermission s) as [[|]|];
      cbn; intuition congruence.
  - intros Hoff t. apply no_frame_no_tick, Hnone, Hoff.
Qed.

(** ** The status text *)

Lemma step_status_vocabulary (a : Action) (s : CameraView) :
  status s ∈ status_vocabulary -> status (step a s) ∈ status_vocabulary.
Proof.
  destruct a as [ | stream | err | t | call | k outcome]; cbn [step]; intros H.
  - explode s; cbn in H |- *; in_vocabulary.
  - explode s; destruct cr; cbn in H |- *; in_vocabulary.
  - explode s; destruct cr; cbn in H |- *; in_vocabulary.
  - unfold onAnimationFrame, detectionLoop, drawAndCompare,
      handleMotionDetected, submit.
    cbn. split_state_cases; in_vocabulary.
  - unfold onCall. destruct (mediaStreamRef s); exact H.
  - unfold analysisSettled, handleMotionDetected_resume.
    cbn. split_state_cases; in_vocabulary.
Qed.

(** X8. In every state the camera view reaches, the status text is one of
    the four texts [StatusDisplay] knows; so the default branch of its
    [switch] only ever serves "Parado", and the icon spins exactly while
    the status is "Analisando Imagem...". *)
Theorem status_is_displayable (supported : bool) (acts : list Action) :
  let s := run acts (mounted supported) in
  status s ∈ status_vocabulary /\
  (icon (StatusDisplay (status s)) = Power <-> status s = "Parado"%string) /\
  (icon (StatusDisplay (status s)) = CheckCircle
   <-> status s = "Monitorando..."%string) /\
  (spin (StatusDisplay (status s)) = true
   <-> status s = "Analisando Imagem..."%string).
Proof.
  cbv zeta.
  assert (Hinv : status (run acts (mounted supported)) ∈ status_vocabulary).
  { apply (run_invariant (fun s => status s ∈ status_vocabulary));
      [apply step_status_vocabulary | left]. }
  split; [exact Hinv|].
  apply list_elem_of_In in Hinv. cbn in Hinv.
  destruct Hinv as [<- | [<- | [<- | [<- | []]]]];
    cbn; repeat split; intros H; first [reflexivity | discriminate H].
Qed.

(** ** The closure of a suspended handler *)

Lemma tick_closure (t : Tick) (s : CameraView) :
  awaiting (onAnimationFrame t s) = awaiting s \/
  exists m : bool,
    animationFrame s = Some m /\
    awaiting (onAnimationFrame t s)
    = awaiting s ++ [{| newEventId := pretty (now t); image := dataUrl t;
                        closureMonitoring := m |}].
Proof.
  unfold onAnimationFrame, detectionLoop, drawAndCompare, handleMotionDetected,
    submit.
  destruct (animationFrame s) as [m|] eqn:Haf; [|left; reflexivity].
  cbn. split_state_cases; auto. right. exists m. split; reflexivity.
Qed.

Lemma step_closures_monitoring (a : Action) (s : CameraView) :
  loop_scheduled_ok s -> closures_monitoring s ->
  closures_monitoring (step a s).
Proof.
  unfold closures_monitoring. intros Hloop Hinv.
  destruct a as [ | stream | err | t | call | k outcome].
  1-3, 5: rewrite lifecycle_step_awaiting by exact I; exact Hinv.
  - cbn [step]. destruct (tick_closure t s) as [-> | (m & Haf & ->)];
      [exact Hinv|].
    intros h Hh. apply elem_of_app in Hh as [Hh | Hh]; [apply Hinv, Hh|].
    apply list_elem_of_singleton in Hh as ->. cbn.
    destruct Hloop as [Hnone | (Htrue & _)]; congruence.
  - cbn [step]. destruct (awaiting s !! k) as [h0|] eqn:Hk.
    + destruct (analysisSettled_pipeline k outcome s h0 Hk) as [-> _].
      intros h Hh. apply Hinv. eapply list_elem_of_delete_inv, Hh.
    + unfold analysisSettled. rewrite Hk. exact Hinv.
Qed.

Lemma reachable_closures_monitoring (supported : bool) (acts : list Action) :
  closures_monitoring (run acts (mounted supported)).
Proof.
  apply (run_invariant
           (fun s => loop_scheduled_ok s /\ closures_monitoring s)).
  - intros a s [Hloop Hclos]. split;
      [apply step_loop_scheduled_ok, Hloop
      | apply step_closures_monitoring; assumption].
  - split; [apply mounted_loop_scheduled_ok|]. intros h Hh. inversion Hh.
Qed.

(** X9. In every state the camera view reaches, every handler waiting for
    an analysis captured [isMonitoring = true]; so when its analysis call
    ends the status becomes "Monitorando...", also when monitoring has been
    switched off in the meantime. *)
Theorem completion_sets_monitoring_status (supported : bool)
    (acts : list Action) (k : nat) (h : Suspended) (outcome : ApiOutcome) :
  let s := run acts (mounted supported) in
  awaiting s !! k = Some h ->
  closureMonitoring h = true /\
  status (step (AnalysisSettled k outcome) s) = "Monitorando..."%string /\
  isMonitoring (step (AnalysisSettled k outcome) s) = isMonitoring s.
Proof.
  cbv zeta. intros Hk.
  assert (Hm : closureMonitoring h = true).
  { apply (reachable_closures_monitoring supported acts).
    eapply list_elem_of_lookup_2, Hk. }
  split; [exact Hm|]. cbn [step]. split; [|apply analysisSettled_frame].
  unfold analysisSettled, handleMotionDetected_resume. rewrite Hk, Hm.
  reflexivity.
Qed.

Lemma toggle_isMonitoring (s : CameraView) :
  isMonitoring (step ToggleMonitoring s) = negb (isMonitoring s).
Proof.
  cbn [step].
  destruct (commit_frame (isMonitoring s) (hasCameraPermission s)
              (set_isMonitoring (negb (isMonitoring s)) s)) as (-> & _).
  reflexivity.
Qed.

Lemma white_tick_then_stop :
  awaiting (run (([ToggleMonitoring; GetUserMediaResolved 0%nat]
                  ++ [AnimationFrame white_tick]) ++ [ToggleMonitoring])
              (mounted true))
  = [white_handler] /\
  isMonitoring (run (([ToggleMonitoring; GetUserMediaResolved 0%nat]
                      ++ [AnimationFrame white_tick]) ++ [ToggleMonitoring])
                  (mounted true))
  = false.
Proof.
  rewrite (run_snoc _ ToggleMonitoring).
  rewrite lifecycle_step_awaiting by exact I.
  rewrite toggle_isMonitoring.
  rewrite run_snoc, white_tick_session. split; [reflexivity|].
  destruct (onAnimationFrame_frame white_tick
              (run [ToggleMonitoring; GetUserMediaResolved 0%nat] (mounted true)))
    as (Hmon & _).
  cbn [step]. rewrite Hmon. reflexivity.
Qed.

Lemma completion_sets_monitoring_status_witness :
  let s := run (([ToggleMonitoring; GetUserMediaResolved 0%nat]
                 ++ [AnimationFrame white_tick]) ++ [ToggleMonitoring])
             (mounted true) in
  let outcome := Resolved (Some {| text := Some "Um gato no sofá."%string |}) in
  awaiting s !! 0%nat = Some white_handler /\
  isMonitoring s = false /\
  status (step (AnalysisSettled 0 outcome) s) = "Monitorando..."%string.
Proof.
  cbv zeta. destruct white_tick_then_stop as [Haw Hmon].
  assert (Hk : awaiting (run (([ToggleMonitoring; GetUserMediaResolved 0%nat]
                               ++ [AnimationFrame white_tick]) ++ [ToggleMonitoring])
                           (mounted true)) !! 0%nat = Some white_handler)
    by (rewrite Haw; reflexivity).
  split; [exact Hk|]. split; [exact Hmon|].
  exact (proj1 (proj2 (completion_sets_monitoring_status true _ 0%nat white_handler
                         (Resolved (Some {| text := Some "Um gato no sofá."%string |}))
                         Hk))).
Defined.

(** ** The stream held by the component *)

Lemma step_camera_refs_ok (a : Action) (s : CameraView) :
  camera_refs_ok s -> camera_refs_ok (step a s).
Proof.
  unfold camera_refs_ok.
  destruct a as [ | stream | err | t | call | k outcome]; cbn [step]; intros H.
  - explode s; cbn in H |- *; intuition congruence.
  - explode s; destruct cr; cbn in H |- *; intuition congruence.
  - explode s; destruct cr; cbn in H |- *; intuition congruence.
  - unfold onAnimationFrame, detectionLoop, drawAndCompare,
      handleMotionDetected, submit.
    destruct (animationFrame s) as [[|]|]; cbn; try exact H.
    destruct (videoSrcObject s) eqn:Hv, (frame t); cbn; try (rewrite Hv; exact H).
    destruct (exceeds _ _); cbn; try (rewrite Hv; exact H).
    destruct (_ <? _); cbn; rewrite Hv; exact H.
  - unfold onCall. destruct (mediaStreamRef s) eqn:Hm; cbn; rewrite ?Hm.
    + exact H.
    + split; [apply H | intros Hne; congruence].
  - unfold analysisSettled, handleMotionDetected_resume.
    destruct (awaiting s !! k) as [h|]; [|exact H].
    destruct (analyzeImage (image h) outcome), (closureMonitoring h); exact H.
Qed.

(** X10. In every state the camera view reaches, the video element shows
    exactly the stream the component holds, and whenever it holds one the
    camera permission is recorded as granted and no inbound call is waiting
    in the queue. *)
Theorem held_stream_consistent (supported : bool) (acts : list Action) :
  let s := run acts (mounted supported) in
  videoSrcObject s = mediaStreamRef s /\
  (forall stream : MediaStream,
      mediaStreamRef s = Some stream ->
      hasCameraPermission s = Some true /\ pendingCalls s = []) /\
  (pendingCalls s <> [] -> mediaStreamRef s = None).
Proof.
  cbv zeta.
  assert (Hinv : camera_refs_ok (run acts (mounted supported))).
  { apply run_invariant; [apply step_camera_refs_ok|].
    split; [reflexivity | intros H; destruct (H eq_refl)]. }
  destruct Hinv as [Hsrc Hheld]. split; [exact Hsrc|]. split.
  - intros stream Hs. apply Hheld. rewrite Hs. discriminate.
  - intros Hq. destruct (mediaStreamRef (run acts (mounted supported))) eqn:Hm;
      [|reflexivity].
    destruct Hheld as [_ Hempty]; [discriminate | contradiction].
Qed.

(** ** The overlay over the video *)

Lemma camera_error_message_nonempty (err : Thrown) :
  String.eqb (camera_error_message err) "" = false.
Proof.
  destruct err as [name message|]; [|reflexivity].
  cbn [camera_error_message].
  destruct (String.eqb name "NotAllowedError"); reflexivity.
Qed.

Lemma retry_overlay (s : CameraView) :
  isMonitoring s = false -> mediaDevicesSupported s = true ->
  hasCameraPermission s <> Some true ->
  cameraOverlay (step ToggleMonitoring s) = WaitingOverlay /\
  error (step ToggleMonitoring s) = None.
Proof.
  intros Hmon Hsup Hperm.
  explode s; cbn in Hmon, Hsup, Hperm; try discriminate; try congruence;
    split; reflexivity.
Qed.

(** X17. In every state the camera view reaches with monitoring switched
    on, a rejected [getUserMedia] makes the overlay show exactly the error
    message built from the rejection; and starting again, while the
    permission is not recorded as granted, replaces it by the waiting
    notice, the old error being cleared. *)
Theorem permission_overlay (supported : bool) (acts : list Action)
    (err : Thrown) :
  let s := run acts (mounted supported) in
  (isMonitoring s = true -> cameraRequests s <> 0%nat ->
   cameraOverlay (step (GetUserMediaRejected err) s)
   = ErrorOverlay (camera_error_message err)) /\
  (isMonitoring s = false -> mediaDevicesSupported s = true ->
   hasCameraPermission s <> Some true ->
   cameraOverlay (step ToggleMonitoring s) = WaitingOverlay /\
   error (step ToggleMonitoring s) = None).
Proof.
  cbv zeta. split; [|apply retry_overlay].
  intros Hmon Hreq.
  pose proof (run_loop_scheduled_ok acts _ (mounted_loop_scheduled_ok supported))
    as Hok.
  destruct (rejected_state err _ Hok Hreq)
    as (Hm & He & Hp & _).
  unfold cameraOverlay. rewrite Hm, He, Hp, Hmon. cbn.
  rewrite camera_error_message_nonempty. reflexivity.
Qed.

(** ** The viewer *)

Lemma viewer_step_inv (peerId : string) (a : Viewer.Action)
    (v : Viewer.ViewerState) :
  Viewer.viewer_inv peerId v -> Viewer.viewer_inv peerId (Viewer.step peerId a v).
Proof.
  unfold Viewer.viewer_inv. destruct v as [st er src p mt cs]. cbn.
  intros (H1 & H2 & H3 & H4 & H5 & H6).
  destruct a as [ | | rs | | | type | ]; cbn;
    destruct mt, p, cs as [|c cs]; cbn;
    try destruct (String.eqb_spec peerId ""); cbn;
    viewer_cases.
  apply elem_of_cons in H as [-> | H]; [apply H3; left|].
  apply elem_of_app in H as [H | H]; [apply H3; right; exact H|].
  apply list_elem_of_singleton in H. exact H.
Qed.

Lemma viewer_run_inv (peerId : string) (acts : list Viewer.Action) :
  forall v : Viewer.ViewerState,
    Viewer.viewer_inv peerId v ->
    Viewer.viewer_inv peerId (Viewer.run peerId acts v).
Proof.
  induction acts as [|a acts IH]; intros v Hv; [exact Hv|].
  cbn [Viewer.run]. apply IH, viewer_step_inv, Hv.
Qed.

Lemma viewer_initial_inv (peerId : string) :
  Viewer.viewer_inv peerId Viewer.initial.
Proof. unfold Viewer.viewer_inv. cbn. viewer_cases. Qed.

(** X11. At every moment of a viewer's life, the overlay is lifted (status
    "Conectado") only when a remote stream is attached to the video, no
    error is pending and a call was placed; calls are placed only to the
    given camera id, which is then not empty; a stream is attached only
    after a call was placed; and while no error is pending the status is
    one of the three error-free ones. *)
Theorem viewer_overlay_lifted_only_with_stream (peerId : string)
    (acts : list Viewer.Action) :
  let v := Viewer.run peerId acts Viewer.initial in
  (Viewer.overlay_visible v = false ->
   Viewer.error v = None /\ Viewer.srcObject v <> None /\ Viewer.calls v <> []) /\
  (forall c : string, c ∈ Viewer.calls v -> c = peerId /\ peerId <> ""%string) /\
  (Viewer.srcObject v <> None -> Viewer.calls v <> []) /\
  (Viewer.error v = None ->
   Viewer.status v ∈ ["Conectando à câmera..."; "Conectado";
                      "Câmera desconectada"]%string) /\
  (peerId = ""%string -> Viewer.overlay_visible v = true).
Proof.
  cbv zeta.
  destruct (viewer_run_inv peerId acts _ (viewer_initial_inv peerId))
    as (H1 & H2 & H3 & H4 & H5 & H6).
  assert (Hlift : Viewer.overlay_visible (Viewer.run peerId acts Viewer.initial)
                  = false ->
                  Viewer.status (Viewer.run peerId acts Viewer.initial)
                  = "Conectado"%string).
  { unfold Viewer.overlay_visible. intros H. apply negb_false_iff in H.
    apply String.eqb_eq, H. }
  split; [intros H; apply H1, Hlift, H|]. split; [exact H3|].
  split; [exact H6|]. split; [exact H2|].
  intros Hempty.
  apply not_false_iff_true. intros Hv.
  destruct (H1 (Hlift Hv)) as (_ & _ & Hcalls).
  destruct (Viewer.calls (Viewer.run peerId acts Viewer.initial)) as [|c cs] eqn:Hc;
    [congruence|].
  destruct (H3 c ltac:(left)) as [_ Hne]. contradiction.
Qed.

(** ** The router and the viewer it mounts *)

(** X12. Until its mount effect has run the router shows the loader; after
    it, the viewer is shown exactly when the [view] parameter is present and
    not empty, with that value as camera id, and the camera view otherwise;
    a viewer mounted this way never reports a missing camera id, and every
    call it places goes to the id from the URL. *)
Theorem router_mounts_viewer_with_id (view : option string)
    (acts : list Viewer.Action) :
  Router.render Router.initial = Router.LoaderScreen /\
  (forall p : string,
      Router.render (Router.mountEffect view Router.initial)
      = Router.ViewerScreen p <->
      view = Some p /\ p <> ""%string) /\
  (Router.render (Router.mountEffect view Router.initial) = Router.CameraScreen
   <-> view = None \/ view = Some ""%string) /\
  (forall p : string,
      Router.render (Router.mountEffect view Router.initial)
      = Router.ViewerScreen p ->
      Viewer.error (Viewer.run p acts Viewer.initial)
      <> Some "Nenhum ID de câmera fornecido."%string /\
      forall c : string,
        c ∈ Viewer.calls (Viewer.run p acts Viewer.initial) -> c = p).
Proof.
  assert (Hview : forall p : string,
             Router.render (Router.mountEffect view Router.initial)
             = Router.ViewerScreen p <-> view = Some p /\ p <> ""%string).
  { intros p. unfold Router.render, Router.mountEffect. cbn.
    destruct view as [q|]; [|split; [discriminate | intros [H _]; discriminate H]].
    destruct (String.eqb_spec q "").
    - split; [discriminate | intros [H Hne]; congruence].
    - split; [intros H; injection H as <-; split; [reflexivity | assumption]
             | intros [H _]; injection H as <-; reflexivity]. }
  split; [reflexivity|]. split; [exact Hview|]. split.
  - unfold Router.render, Router.mountEffect. cbn.
    destruct view as [q|]; [|split; auto].
    destruct (String.eqb_spec q "").
    + subst q. split; auto.
    + split; [discriminate | intros [H | H]; congruence].
  - intros p Hp. apply Hview in Hp as [_ Hne].
    destruct (viewer_run_inv p acts _ (viewer_initial_inv p))
      as (_ & _ & H3 & _ & H5 & _).
    split; [intros H; apply Hne, H5, H | intros c Hc; apply H3, Hc].
Qed.

(** ** The share panel *)

Lemma link_of_more (loc : Share.Location) (ids more : list string) (w : string) :
  Share.link_of loc ids w -> Share.link_of loc (ids ++ more) w.
Proof.
  intros (id & Hin & Hne & Hw). exists id.
  split; [apply elem_of_app; left; exact Hin | split; assumption].
Qed.

Lemma link_nonempty (o pa p : string) :
  String.eqb (o +:+ pa +:+ "?view=" +:+ p) "" = false.
Proof. destruct o; [destruct pa|]; reflexivity. Qed.

Lemma share_step_inv (loc : Share.Location) (ids : list string)
    (a : Share.Action) (s : Share.SharePanel) :
  Share.panel_inv loc ids s ->
  Share.panel_inv loc (ids ++ Share.opened [a]) (Share.step loc a s).
Proof.
  unfold Share.panel_inv. destruct s as [pid copied wr pend tm]. cbn.
  intros (Htimer & Hlinks & Hid).
  assert (Hmore : forall more w, w ∈ wr -> Share.link_of loc (ids ++ more) w)
    by (intros more w Hw; apply link_of_more, Hlinks, Hw).
  assert (Hidmore : forall more p, pid = Some p -> p ∈ ids ++ more)
    by (intros more p Hp; apply elem_of_app; left; apply Hid, Hp).
  destruct a as [id | | | | ]; cbn.
  - repeat split; auto. intros p Hp. injection Hp as <-.
    apply elem_of_app. right. left.
  - unfold Share.copyLink, Share.shareableLink. cbn.
    destruct pid as [p|]; cbn; [|repeat split; auto].
    destruct (String.eqb_spec p ""); cbn; [repeat split; auto|].
    rewrite link_nonempty. cbn. repeat split; auto.
    intros w Hw. apply elem_of_app in Hw as [Hw | Hw]; [apply Hmore, Hw|].
    apply list_elem_of_singleton in Hw as ->.
    exists p. split; [apply Hidmore; reflexivity | split; [assumption | reflexivity]].
  - destruct pend; cbn; repeat split; auto; intros; discriminate.
  - destruct pend; cbn; repeat split; auto.
  - destruct tm; cbn; repeat split; auto; intros; discriminate.
Qed.

Lemma opened_cons (a : Share.Action) (acts : list Share.Action) :
  Share.opened (a :: acts) = Share.opened [a] ++ Share.opened acts.
Proof. destruct a; reflexivity. Qed.

Lemma share_run_inv (loc : Share.Location) (acts : list Share.Action) :
  forall (ids : list string) (s : Share.SharePanel),
    Share.panel_inv loc ids s ->
    Share.panel_inv loc (ids ++ Share.opened acts) (Share.run loc acts s).
Proof.
  induction acts as [|a acts IH]; intros ids s Hs.
  - cbn. rewrite app_nil_r. exact Hs.
  - cbn [Share.run]. rewrite (opened_cons a acts), app_assoc.
    apply IH, share_step_inv, Hs.
Qed.

(** X13. In the share panel the "copied" indicator is never on without a
    reset timer still pending; every text handed to the clipboard is the
    page's address followed by "?view=" and a non-empty id that the
    signalling service had delivered; and [copyLink] does nothing at all
    while there is no id. *)
Theorem share_panel_links (loc : Share.Location) (acts : list Share.Action) :
  let s := Share.run loc acts Share.initial in
  (Share.isLinkCopied s = true -> Share.timers s <> 0%nat) /\
  (forall w : string,
      w ∈ Share.written s ->
      exists id : string,
        id ∈ Share.opened acts /\ id <> ""%string /\
        w = (Share.origin loc +:+ Share.pathname loc +:+ "?view=" +:+ id)%string) /\
  (Share.opened acts = [] -> Share.written s = []) /\
  (forall s0 : Share.SharePanel,
      Share.peerId s0 = None \/ Share.peerId s0 = Some ""%string ->
      Share.copyLink loc s0 = s0).
Proof.
  cbv zeta.
  assert (Hinv : Share.panel_inv loc ([] ++ Share.opened acts)
                   (Share.run loc acts Share.initial)).
  { apply share_run_inv. unfold Share.panel_inv. cbn.
    repeat split; intros; try discriminate. inversion H. }
  cbn [app] in Hinv. destruct Hinv as (Htimer & Hlinks & _).
  split; [exact Htimer|]. split; [exact Hlinks|]. split.
  - intros Hnone.
    destruct (Share.written (Share.run loc acts Share.initial)) as [|w ws] eqn:Hw;
      [reflexivity|].
    destruct (Hlinks w ltac:(left)) as (id & Hin & _).
    rewrite Hnone in Hin. inversion Hin.
  - intros s0 [H | H]; unfold Share.copyLink, Share.shareableLink; rewrite H;
      reflexivity.
Qed.

(** ** Keys of the event cards *)

(** X14. When the clock advances from each tick to the next, the ids of the
    detection events, which are the keys of the event cards, are pairwise
    distinct in every state the camera view reaches. *)
Theorem event_keys_distinct (supported : bool) (acts : list Action) (lo : Z) :
  clocks_increase lo acts ->
  NoDup (map id (events (run acts (mounted supported)))).
Proof.
  intros Hclock.
  apply (reachable_event_ids_distinct acts lo); [|exact Hclock].
  split; [apply NoDup_nil_2|]. intros d Hd. inversion Hd.
Qed.

Lemma event_keys_distinct_witness :
  let later := {| frame := Some blank_canvas; dataUrl := dataUrl white_tick;
                  now := 1700000020000; date := 1700000020000 |} in
  let acts := [ToggleMonitoring; GetUserMediaResolved 0%nat;
               AnimationFrame white_tick; AnimationFrame later] in
  clocks_increase 0 acts /\
  NoDup (map id (events (run acts (mounted true)))).
Proof.
  cbv zeta.
  assert (Hclock : clocks_increase 0
            [ToggleMonitoring; GetUserMediaResolved 0%nat;
             AnimationFrame white_tick;
             AnimationFrame
               {| frame := Some blank_canvas; dataUrl := dataUrl white_tick;
                  now := 1700000020000; date := 1700000020000 |}]).
  { cbn [clocks_increase]. unfold white_tick. cbn [now]. lia. }
  split; [exact Hclock|].
  exact (event_keys_distinct true _ 0 Hclock).
Defined.

(** ** Streams acquired and streams stopped *)

Lemma step_streams (a : Action) (s : CameraView) :
  stoppedStreams (step a s) ++ held (step a s)
  = stoppedStreams s ++ held s \/
  exists stream : MediaStream,
    a = GetUserMediaResolved stream /\
    stoppedStreams (step a s) = stoppedStreams s /\
    held (step a s) = [stream].
Proof.
  unfold held.
  destruct a as [ | stream | err | t | call | k outcome]; cbn [step].
  - left. explode s; cbn; rewrite ?app_nil_r; reflexivity.
  - explode s; destruct cr; cbn; rewrite ?app_nil_r;
      first [ left; reflexivity | right; exists stream; repeat split ].
  - left. explode s; destruct cr; cbn; rewrite ?app_nil_r; reflexivity.
  - left. unfold onAnimationFrame, detectionLoop, drawAndCompare,
      handleMotionDetected, submit.
    cbn. split_state_cases; reflexivity.
  - left. unfold onCall. destruct (mediaStreamRef s) eqn:Hm; cbn; rewrite ?Hm;
      reflexivity.
  - left. unfold analysisSettled, handleMotionDetected_resume.
    cbn. split_state_cases; reflexivity.
Qed.

Lemma acquired_cons (a : Action) (acts : list Action) :
  acquired (a :: acts) = acquired [a] ++ acquired acts.
Proof. destruct a; reflexivity. Qed.

Lemma run_streams (acts : list Action) :
  forall (before : list MediaStream) (s : CameraView),
    stoppedStreams s ++ held s `sublist_of` before ->
    stoppedStreams (run acts s) ++ held (run acts s)
      `sublist_of` before ++ acquired acts.
Proof.
  induction acts as [|a acts IH]; intros before s Hs.
  - cbn. rewrite app_nil_r. exact Hs.
  - cbn [run]. rewrite (acquired_cons a acts), app_assoc. apply IH.
    destruct (step_streams a s) as [-> | (stream & -> & -> & ->)].
    + apply sublist_inserts_r, Hs.
    + cbn [acquired app]. apply sublist_app; [|reflexivity].
      etransitivity; [|exact Hs]. apply sublist_inserts_r. reflexivity.
Qed.

(** X18. Along any history the streams whose tracks the component has
    stopped, followed by the one it holds, are among the streams that
    [getUserMedia] delivered, in the order of delivery and each at most as
    often as it was delivered: the component never stops a stream it did not
    acquire and never stops an acquired stream twice. *)
Theorem stopped_streams_were_acquired (supported : bool) (acts : list Action) :
  let s := run acts (mounted supported) in
  stoppedStreams s ++ held s `sublist_of` acquired acts /\
  (NoDup (acquired acts) -> NoDup (stoppedStreams s)) /\
  (forall stream : MediaStream,
      stream ∈ stoppedStreams s -> stream ∈ acquired acts).
Proof.
  cbv zeta.
  assert (Hsub : stoppedStreams (run acts (mounted supported))
                 ++ held (run acts (mounted supported))
                   `sublist_of` acquired acts).
  { apply (run_streams acts [] (mounted supported)). reflexivity. }
  assert (Hstopped : stoppedStreams (run acts (mounted supported))
                       `sublist_of` acquired acts).
  { etransitivity; [|exact Hsub]. apply sublist_inserts_r. reflexivity. }
  split; [exact Hsub|]. split.
  - intros Hnd. eapply sublist_NoDup; [exact Hnd | exact Hstopped].
  - intros stream Hin. eapply elem_of_sublist; [exact Hin | exact Hstopped].
Qed.

(** ** What the gate remembers *)

Lemma lifecycle_step_gate (a : Action) (s : CameraView) :
  lifecycle a ->
  lastDetectionTime (step a s) = lastDetectionTime s \/
  lastDetectionTime (step a s) = 0.
Proof.
  destruct a; cbn [lifecycle step]; intros Hl; try contradiction.
  - explode s; cbn; auto.
  - explode s; destruct cr; cbn; auto.
  - explode s; destruct cr; cbn; auto.
  - left. unfold onCall. destruct (mediaStreamRef s); reflexivity.
Qed.

Lemma step_gate_tracks_newest (a : Action) (s : CameraView) :
  gate_tracks_newest s -> gate_tracks_newest (step a s).
Proof.
  unfold gate_tracks_newest. intros Hinv.
  destruct a as [ | stream | err | t | call | k outcome].
  1-3, 5: rewrite lifecycle_step_events by exact I;
    match goal with
    | |- context [step ?a ?s0] =>
        destruct (lifecycle_step_gate a s0 I) as [-> | ->];
        [exact Hinv | left; reflexivity]
    end.
  - destruct (tick_cases t s) as [[-> ->] | [-> ->]]; [exact Hinv|].
    right. eexists _, _. split; reflexivity.
  - cbn [step].
    destruct (analysisSettled_frame k outcome s) as (_ & _ & -> & _).
    destruct Hinv as [H0 | (e & older & Hev & Hid)]; [left; exact H0|].
    right.
    destruct (analysisSettled_events_cases k outcome s)
      as [-> | (h & d & _ & ->)]; [exists e, older; split; assumption|].
    rewrite Hev. cbn [write_analysis map].
    eexists _, _. split; [reflexivity|].
    rewrite <- Hid. destruct (String.eqb (id e) (newEventId h)); reflexivity.
Qed.

(** X19. In every state the camera view reaches, the time the cooldown gate
    remembers is either 0 (nothing triggered since the loop last started)
    or the capture time from which the id of the newest event was made. *)
Theorem gate_remembers_newest_event (supported : bool) (acts : list Action) :
  let s := run acts (mounted supported) in
  lastDetectionTime s = 0 \/
  exists (e : DetectionEvent) (older : list DetectionEvent),
    events s = e :: older /\ id e = pretty (lastDetectionTime s).
Proof.
  cbv zeta. apply (run_invariant gate_tracks_newest).
  - apply step_gate_tracks_newest.
  - left. reflexivity.
Qed.
